(** * Retention matrices and session-recording reassembly

    A shallow embedding of

    - [ee/clickhouse/queries/clickhouse_retention.py] (class
      [ClickhouseRetention]) and
    - [posthog/queries/sessions/session_recording.py] (class
      [SessionRecording] and the module-level correlation helpers),

    together with the properties of the two modules that the specification
    states.  Python dictionaries are finite maps ([gmap]), Python integers
    are [Z], exceptions are the [Raise] branch of [result]. *)

From stdpp Require Import base strings gmap list pretty.

Local Open Scope string_scope.
Local Open Scope Z_scope.
Local Open Scope list_scope.

(** ** Exceptions *)

(** The exceptions that can leave the modelled functions.  [ValueError] is
    raised by the source itself; [JSONDecodeError] by [json.loads]; every
    other failure of a collaborator (database, ORM, date arithmetic) is a
    [LibraryError] tagged with the name the collaborator gives it. *)
Inductive exn : Type :=
  | ValueError (msg : string)
  | JSONDecodeError (doc : string)
  | LibraryError (name : string).

Inductive result (A : Type) : Type :=
  | Ok (a : A)
  | Raise (e : exn).

Arguments Ok {A} a.
Arguments Raise {A} e.

Definition result_map {A B : Type} (f : A → B) (r : result A) : result B :=
  match r with
  | Ok a => Ok (f a)
  | Raise e => Raise e
  end.

Definition is_Ok {A : Type} (r : result A) : Prop :=
  match r with
  | Ok _ => True
  | Raise _ => False
  end.

#[global] Instance result_ret : MRet result := λ A a, Ok a.
#[global] Instance result_bind : MBind result := λ A B f r,
  match r with
  | Ok a => f a
  | Raise e => Raise e
  end.

(** A list comprehension whose element expression may raise: elements are
    evaluated left to right and the first exception ends the evaluation. *)
Fixpoint comprehension {A B : Type} (f : A → result B) (l : list A) : result (list B) :=
  match l with
  | [] => Ok []
  | x :: rest =>
      y ← f x;
      ys ← comprehension f rest;
      Ok (y :: ys)
  end.

(** [range(n)] of Python: empty when [n <= 0]. *)
Definition range (n : Z) : list Z := seqZ 0 n.

(** [Team]: only the primary key is read. *)
Record Team : Type := { pk : Z }.

Definition team7 : Team := {| pk := 7 |}.

(** ** Session recordings *)

Module SessionRecording.

Section Merge.

(** Decoded snapshot payloads, and [json.loads]. *)
Context {json : Type}.
Variable json_loads : string → result json.

(** An element of [unmerged_snapshots]: a dictionary whose
    ["posthog_chunked"] entry is truthy (a chunk, with the four fields the
    loop reads) or any other payload. *)
Inductive item : Type :=
  | Chunk (snapshot_id : string) (chunk_index : Z) (chunk_count : Z)
          (chunk_data : string)
  | Whole (data : json).

(** The dictionary built at lines 72-77. *)
Record collector : Type := {
  event : item;
  count : Z;
  chunks : gmap Z string;
}.

(** An element of [snapshots_and_collectors].  The Python list holds the
    collector object itself, the very object that [snapshot_collectors]
    maps the snapshot id to and that line 81 keeps mutating; the model
    keeps the objects in the map and lets the list refer to them by their
    key (an id is bound once and never rebound, so the key is the object's
    identity). *)
Inductive slot : Type :=
  | IsCollector (snapshot_id : string)
  | IsSnapshot (data : json).

Record collecting : Type := {
  snapshot_collectors : gmap string collector;
  snapshots_and_collectors : list slot;
}.

Definition start : collecting :=
  {| snapshot_collectors := ∅; snapshots_and_collectors := [] |}.

Definition record_chunk (chunk_index : Z) (chunk_data : string)
    (c : collector) : collector :=
  {| event := event c; count := count c;
     chunks := <[chunk_index := chunk_data]> (chunks c) |}.

(** Body of the first loop (lines 69-83). *)
Definition collect (st : collecting) (chunk_or_snapshot : item) : collecting :=
  match chunk_or_snapshot with
  | Chunk snapshot_id chunk_index chunk_count chunk_data =>
      let st1 :=
        match snapshot_collectors st !! snapshot_id with
        | Some _ => st
        | None =>
            {| snapshot_collectors :=
                 <[snapshot_id := {| event := chunk_or_snapshot;
                                     count := chunk_count;
                                     chunks := ∅ |}]> (snapshot_collectors st);
               snapshots_and_collectors :=
                 snapshots_and_collectors st ++ [IsCollector snapshot_id] |}
        end in
      {| snapshot_collectors :=
           alter (record_chunk chunk_index chunk_data) snapshot_id
                 (snapshot_collectors st1);
         snapshots_and_collectors := snapshots_and_collectors st1 |}
  | Whole data =>
      {| snapshot_collectors := snapshot_collectors st;
         snapshots_and_collectors :=
           snapshots_and_collectors st ++ [IsSnapshot data] |}
  end.

(** The inner loop (lines 90-94): [None] when [has_all_chunks] ends up
    [False], otherwise the accumulated [data].  [not chunks.get(i)] holds
    for a missing index and for an empty string alike. *)
Fixpoint gather (chunks : gmap Z string) (indices : list Z) (data : string)
    : option string :=
  match indices with
  | [] => Some data
  | i :: rest =>
      match chunks !! i with
      | None => None
      | Some d => if decide (d = "") then None else gather chunks rest (data +:+ d)
      end
  end.

(** The text handed to [capture_message]. *)
Definition missing_chunks_message (team : Team) (session_id : string) : string :=
  "Did not find all session recording chunks! Team: " +:+ pretty (pk team)
  +:+ ", Session: " +:+ session_id.

(** The second loop (lines 86-103).  [snapshots] is the list being
    appended to, [captured] the messages sent to [capture_message] so far;
    both are returned, the messages also when [json.loads] raises. *)
Fixpoint emit (team : Team) (session_id : string)
    (collectors : gmap string collector) (slots : list slot)
    (snapshots : list json) (captured : list string)
    : list string * result (list json) :=
  match slots with
  | [] => (captured, Ok snapshots)
  | IsCollector r :: rest =>
      match collectors !! r with
      | Some snapshot_or_collector =>
          match gather (chunks snapshot_or_collector)
                       (range (count snapshot_or_collector)) "" with
          | Some data =>
              match json_loads data with
              | Ok v => emit team session_id collectors rest (snapshots ++ [v]) captured
              | Raise e => (captured, Raise e)
              end
          | None =>
              emit team session_id collectors rest snapshots
                   (captured ++ [missing_chunks_message team session_id])
          end
      | None => emit team session_id collectors rest snapshots captured
      end
  | IsSnapshot data :: rest =>
      emit team session_id collectors rest (snapshots ++ [data]) captured
  end.

(** [merge_snapshot_chunks]: the messages captured and the list returned
    (or the exception raised). *)
Definition merge_snapshot_chunks (team : Team) (session_id : string)
    (unmerged_snapshots : list item) : list string * result (list json) :=
  let st := foldl collect start unmerged_snapshots in
  emit team session_id (snapshot_collectors st) (snapshots_and_collectors st) [] [].

(** *** The stream seen group by group

    The vocabulary of the specification: the fragments of a group, the
    total its first-seen fragment declares, the logical units of a stream
    in order of first appearance, and what becomes of each unit. *)

Definition of_group (g : string) (x : item) : Prop :=
  match x with
  | Chunk snapshot_id _ _ _ => snapshot_id = g
  | Whole _ => False
  end.

#[global] Instance of_group_dec g x : Decision (of_group g x).
Proof. destruct x; simpl; apply _. Defined.

(** The first fragment of group [g] to arrive. *)
Definition first_fragment (g : string) (l : list item) : option item :=
  head (filter (of_group g) l).

(** The [chunk_count] declared by the first fragment of [g] to arrive. *)
Definition declared_count (g : string) (l : list item) : option Z :=
  match first_fragment g l with
  | Some (Chunk _ _ n _) => Some n
  | _ => None
  end.

(** Index to data over all fragments of [g], a later fragment replacing an
    earlier one with the same index. *)
Definition received (g : string) (l : list item) : gmap Z string :=
  foldl (λ m x, match x with
                | Chunk snapshot_id i _ d =>
                    if decide (snapshot_id = g) then <[i := d]> m else m
                | Whole _ => m
                end) ∅ l.

(** The stream without the fragments of [g]. *)
Definition drop_group (g : string) (l : list item) : list item :=
  filter (λ x, ¬ of_group g x) l.

(** The logical units of a stream in order of first appearance: a whole
    payload where it arrives, a group where its first fragment arrives. *)
Fixpoint first_seen (seen : gset string) (l : list item) : list slot :=
  match l with
  | [] => []
  | Chunk g _ _ _ :: rest =>
      if decide (g ∈ seen) then first_seen seen rest
      else IsCollector g :: first_seen ({[g]} ∪ seen) rest
  | Whole data :: rest => IsSnapshot data :: first_seen seen rest
  end.

(** What becomes of a unit. *)
Inductive verdict : Type :=
  | Emitted (v : json)
  | Incomplete
  | Malformed (e : exn).

Definition group_verdict (n : Z) (chunks : gmap Z string) : verdict :=
  match gather chunks (range n) "" with
  | None => Incomplete
  | Some data =>
      match json_loads data with
      | Ok v => Emitted v
      | Raise e => Malformed e
      end
  end.

Definition verdict_of (l : list item) (s : slot) : option verdict :=
  match s with
  | IsSnapshot data => Some (Emitted data)
  | IsCollector g => (λ n, group_verdict n (received g l)) <$> declared_count g l
  end.

(** The verdicts of the units of [l], in order of first appearance. *)
Definition verdicts (l : list item) : list verdict :=
  omap (verdict_of l) (first_seen ∅ l).

(** Delivery of a list of verdicts, in the order given: an emitted payload
    is appended to the output, an incomplete group is reported, a malformed
    group raises. *)
Fixpoint deliver (team : Team) (session_id : string) (vs : list verdict)
    (snapshots : list json) (captured : list string)
    : list string * result (list json) :=
  match vs with
  | [] => (captured, Ok snapshots)
  | Emitted v :: rest => deliver team session_id rest (snapshots ++ [v]) captured
  | Incomplete :: rest =>
      deliver team session_id rest snapshots
              (captured ++ [missing_chunks_message team session_id])
  | Malformed e :: _ => (captured, Raise e)
  end.

(** The collector that the first loop leaves for group [g]. *)
Definition collector_of (g : string) (l : list item) : option collector :=
  match first_fragment g l with
  | Some (Chunk _ _ n _ as x) =>
      Some {| event := x; count := n; chunks := received g l |}
  | _ => None
  end.

(** The number of messages a delivery captures. *)
Fixpoint reports (vs : list verdict) : nat :=
  match vs with
  | [] => O
  | Emitted _ :: rest => reports rest
  | Incomplete :: rest => S (reports rest)
  | Malformed _ :: _ => O
  end.

(** The payload a verdict contributes to the output. *)
Definition emitted (v : verdict) : option json :=
  match v with
  | Emitted p => Some p
  | _ => None
  end.

(** The fragments [(chunk_index, chunk_data)] of one group as a stream. *)
Definition group_stream (g : string) (n : Z) (fs : list (Z * string)) : list item :=
  (λ f, Chunk g f.1 n f.2) <$> fs.

(** The data [d 0], [d 1], ..., [d (n - 1)] concatenated in this order. *)
Definition index_ordered (n : Z) (d : Z → string) : string :=
  foldr (λ i acc, d i +:+ acc) "" (range n).

(** The fragments [fs] carry every index of [0 .. n-1], index [i] with the
    data [d i]. *)
Definition covered (n : Z) (d : Z → string) (fs : list (Z * string)) : Prop :=
  (∀ i, 0 ≤ i < n → (i, d i) ∈ fs) ∧ (∀ i s, (i, s) ∈ fs → 0 ≤ i < n → s = d i).

(** Chunk order independence as the specification words it: whatever the
    data, a group with all its indices present yields, in every arrival
    order, the decoding of the index-ordered concatenation, once. *)
Definition order_independence_as_stated : Prop :=
  ∀ team session_id g n d fs fs',
    fs ≠ [] → covered n d fs → fs' ≡ₚ fs →
    merge_snapshot_chunks team session_id (group_stream g n fs')
    = ([], result_map (λ v, [v]) (json_loads (index_ordered n d))).

(** Same stream but for the [chunk_count] fields. *)
Definition same_but_count (x y : item) : Prop :=
  match x, y with
  | Chunk g i _ d, Chunk g' i' _ d' => g = g' ∧ i = i' ∧ d = d'
  | Whole a, Whole b => a = b
  | _, _ => False
  end.

End Merge.

Arguments Whole {json} data.
Arguments Chunk {json} snapshot_id chunk_index chunk_count chunk_data.

(** A run on concrete data: payloads are strings and decoding accepts any
    text that starts with an opening brace. *)
Definition loads_braced (s : string) : result string :=
  if String.prefix "{" s then Ok s else Raise (JSONDecodeError s).

(** The data of two groups used as examples: three fragments that spell
    one payload, and two fragments of which the second is empty. *)
Definition abc (i : Z) : string :=
  if decide (i = 0) then "{a" else if decide (i = 1) then "b" else "c}".

Definition braces_then_nothing (i : Z) : string :=
  if decide (i = 0) then "{}" else "".

(** *** Correlation of sessions and recordings *)

(** A session of [sessions_results]; instants are only compared, and are
    integers here. *)
Module Session.
Record t : Type := { distinct_id : string; start_time : Z; end_time : Z }.
End Session.

(** A row of [query_sessions_in_range]. *)
Module Recording.
Record t : Type := {
  session_id : string;
  distinct_id : string;
  start_time : Z;
  end_time : Z;
  duration : Z;
}.
End Recording.

(** [SessionsFilter]: the one attribute [matches] reads. *)
Record SessionsFilter : Type := { recording_unseen_filter : bool }.

(** The dictionaries yielded by [collect_matching_recordings]. *)
Record matched : Type := { id : string; viewed : bool }.

Definition matches (session : Session.t) (session_recording : Recording.t)
    (filter : SessionsFilter) (viewed : gset string) : bool :=
  bool_decide (Session.distinct_id session = Recording.distinct_id session_recording)
  && bool_decide (Session.start_time session ≤ Recording.end_time session_recording)
  && bool_decide (Session.end_time session >= Recording.start_time session_recording)
  && (negb (recording_unseen_filter filter)
      || negb (bool_decide (Recording.session_id session_recording ∈ viewed))).

Fixpoint collect_matching_recordings (session : Session.t)
    (session_recordings : list Recording.t) (filter : SessionsFilter)
    (viewed : gset string) : list matched :=
  match session_recordings with
  | [] => []
  | recording :: rest =>
      if matches session recording filter viewed
      then {| id := Recording.session_id recording;
              viewed := bool_decide (Recording.session_id recording ∈ viewed) |}
           :: collect_matching_recordings session rest filter viewed
      else collect_matching_recordings session rest filter viewed
  end.

(** *** More vocabulary for streams *)

Section Streams.

Context {json : Type}.

(** The payloads that arrive whole, in arrival order. *)
Definition wholes (l : list (@item json)) : list json :=
  omap (λ x, match x with
             | Whole data => Some data
             | Chunk _ _ _ _ => None
             end) l.

(** The data of the fragments of group [g] that carry index [i], in
    arrival order. *)
Definition sent (g : string) (i : Z) (l : list (@item json)) : list string :=
  omap (λ x, match x with
             | Chunk snapshot_id chunk_index _ chunk_data =>
                 if decide (snapshot_id = g ∧ chunk_index = i)
                 then Some chunk_data else None
             | Whole _ => None
             end) l.

(** The ids of the groups that have a fragment in the stream. *)
Definition groups (l : list (@item json)) : gset string :=
  list_to_set (omap (λ x, match x with
                          | Chunk snapshot_id _ _ _ => Some snapshot_id
                          | Whole _ => None
                          end) l).

(** A fragment of a group that the stream [before] has already opened. *)
Definition late (before : list (@item json)) (x : @item json) : Prop :=
  match x with
  | Chunk snapshot_id _ _ _ => snapshot_id ∈ groups before
  | Whole _ => False
  end.

(** Two fragments that write the same index of the same group. *)
Definition same_place (x y : @item json) : Prop :=
  match x, y with
  | Chunk g i _ _, Chunk g' i' _ _ => g = g' ∧ i = i'
  | _, _ => False
  end.

End Streams.

(** *** Groups that do not resolve *)

Section Incomplete.

Context {json : Type}.
Variable json_loads : string → result json.

Definition malformed (v : @verdict json) : bool :=
  match v with
  | Malformed _ => true
  | _ => false
  end.

(** [json.loads] accepts the data of every complete group of the stream:
    no unit has the verdict [Malformed]. *)
Definition decodable (l : list (@item json)) : Prop :=
  Forall (λ v, malformed v = false) (verdicts json_loads l).

(** What the specification asks for a group [g] that does not resolve:
    the call returns; a message has been captured for [g], besides one for
    each other group that does not resolve; the list returned holds no
    payload for [g], being the payloads of the other units of the stream
    in their order; in particular it holds every whole payload and the
    decoded data of every other complete group. *)
Definition reported_and_dropped (team : Team) (session_id : string)
    (g : string) (l : list (@item json)) : Prop :=
  ∃ out,
    merge_snapshot_chunks json_loads team session_id l
    = (replicate (S (reports (verdicts json_loads (drop_group g l))))
         (missing_chunks_message team session_id),
       Ok out)
    ∧ out = omap emitted (verdicts json_loads (drop_group g l))
    ∧ wholes l `sublist_of` out
    ∧ ∀ g' n' v,
        g' ≠ g → declared_count g' l = Some n' →
        group_verdict json_loads n' (received g' l) = Emitted v → v ∈ out.

(** [json.loads] accepts the data of every complete group that is first
    seen before [g]. *)
Definition decodable_before (g : string) (l : list (@item json)) : Prop :=
  ∃ s1 s2,
    first_seen ∅ l = s1 ++ IsCollector g :: s2
    ∧ Forall (λ v, malformed v = false) (omap (verdict_of json_loads l) s1).

(** A group treated as incomplete: the message has been captured, and a
    list that is returned holds no payload for the group, being the
    payloads of the other units in their order. *)
Definition treated_as_incomplete (team : Team) (session_id : string)
    (g : string) (l : list (@item json)) : Prop :=
  missing_chunks_message team session_id
    ∈ (merge_snapshot_chunks json_loads team session_id l).1
  ∧ ∀ out, (merge_snapshot_chunks json_loads team session_id l).2 = Ok out →
           out = omap emitted (verdicts json_loads (drop_group g l)).

(** The incomplete group as the specification words it: whatever else the
    stream holds, a group that lacks an index below its declared count is
    reported and dropped, and the rest of the stream is emitted. *)
Definition short_group_as_stated : Prop :=
  ∀ team session_id l g n i,
    declared_count g l = Some n → 0 ≤ i < n → received g l !! i = None →
    reported_and_dropped team session_id g l.

(** The group with an empty fragment as the specification words it:
    whatever else the stream holds, a group in which an index below the
    declared count holds the empty string is treated as incomplete. *)
Definition empty_chunk_as_stated : Prop :=
  ∀ team session_id l g n i,
    declared_count g l = Some n → 0 ≤ i < n → received g l !! i = Some "" →
    treated_as_incomplete team session_id g l.

End Incomplete.

(** *** [query_recording_snapshots] and [run] *)

Section Run.

Context {json Person : Type}.
Variable json_loads : string → result json.

(** A row of [SessionRecordingEvent]: the attributes read. *)
Record SessionRecordingEvent : Type := {
  distinct_id : string;
  timestamp : Z;
  snapshot_data : @item json;
}.

(** [SessionRecordingEvent.objects.filter(team=team,
    session_id=session_id).order_by("timestamp")]: the rows the database
    hands back, in its order. *)
Variable recording_events : Team → string → list SessionRecordingEvent.

(** [PersonSerializer(Person.objects.get(team=team,
    persondistinctid__distinct_id=distinct_id)).data]; the lookup raises
    when there is no such person. *)
Variable person_data : Team → string → result Person.

Definition query_recording_snapshots (team : Team) (session_id : string)
    : option string * option Z * list (@item json) :=
  let events := recording_events team session_id in
  match events with
  | [] => (None, None, [])
  | first :: _ =>
      (Some (distinct_id first), Some (timestamp first), snapshot_data <$> events)
  end.

(** The dictionary that [run] returns. *)
Record playback : Type := {
  snapshots : list json;
  person : option Person;
  start_time : option Z;
}.

(** [run]: the messages captured and the dictionary returned (or the
    exception raised).  The person is looked up only if [distinct_id] is
    truthy: neither [None] nor the empty string. *)
Definition run (team : Team) (session_recording_id : string)
    : list string * result playback :=
  let '(distinct_id, start_time, unmerged_snapshots) :=
    query_recording_snapshots team session_recording_id in
  match merge_snapshot_chunks json_loads team session_recording_id
          unmerged_snapshots with
  | (captured, Raise e) => (captured, Raise e)
  | (captured, Ok snapshots) =>
      match distinct_id with
      | Some d =>
          if decide (d = "") then
            (captured, Ok {| snapshots := snapshots; person := None;
                             start_time := start_time |})
          else
            match person_data team d with
            | Ok p => (captured, Ok {| snapshots := snapshots; person := Some p;
                                       start_time := start_time |})
            | Raise e => (captured, Raise e)
            end
      | None =>
          (captured, Ok {| snapshots := snapshots; person := None;
                           start_time := start_time |})
      end
  end.

End Run.

(** *** [filter_sessions_by_recordings] *)

Section Correlate.

(** [filter.limit_by_recordings], and the set built from
    [SessionRecordingViewed.objects.filter(team=team,
    user_id=filter.user_id).values_list("session_id", flat=True)]. *)
Variable limit_by_recordings : SessionsFilter → bool.
Variable viewed_session_recordings : Team → SessionsFilter → gset string.

(** [min(it["start_time"] ...)] and [max(it["end_time"] ...)] over a list
    with first element [session]. *)
Definition min_ts (session : Session.t) (rest : list Session.t) : Z :=
  foldr Z.min (Session.start_time session) (Session.start_time <$> rest).

Definition max_ts (session : Session.t) (rest : list Session.t) : Z :=
  foldr Z.max (Session.end_time session) (Session.end_time <$> rest).

(** A session dictionary after [session["session_recordings"]] has been
    assigned. *)
Definition annotated : Type := Session.t * list matched.

(** [filter_sessions_by_recordings].  The function assigns to the
    dictionaries of the list it is given and returns that list or a
    filtered copy: the result is the caller's list as it stands after the
    call, paired with the list returned.  [query] is the parameter of the
    same name. *)
Definition filter_sessions_by_recordings (team : Team)
    (sessions_results : list Session.t) (filter : SessionsFilter)
    (query : Team → Z → Z → SessionsFilter → result (list Recording.t))
    : result (list annotated * list annotated) :=
  match sessions_results with
  | [] => Ok ([], [])
  | first :: rest =>
      session_recordings ←
        query team (min_ts first rest) (max_ts first rest) filter;
      let viewed := viewed_session_recordings team filter in
      let assigned :=
        (λ session,
           (session,
            collect_matching_recordings session session_recordings filter viewed))
          <$> sessions_results in
      if limit_by_recordings filter
      then Ok (assigned,
               base.filter (λ session : annotated, (0 < length session.2)%nat) assigned)
      else Ok (assigned, assigned)
  end.

End Correlate.

(** Data for runs of the above: a recording of two events by user u1, two
    sessions, and one candidate recording. *)
Definition two_events : list (@SessionRecordingEvent string) :=
  [ {| distinct_id := "u1"; timestamp := 100; snapshot_data := Chunk "A" 0 1 "{a}" |};
    {| distinct_id := "u1"; timestamp := 105; snapshot_data := Whole "w" |} ].

Definition session_of (d : string) (a b : Z) : Session.t :=
  {| Session.distinct_id := d; Session.start_time := a; Session.end_time := b |}.

Definition candidate (r d : string) (a b : Z) : Recording.t :=
  {| Recording.session_id := r; Recording.distinct_id := d;
     Recording.start_time := a; Recording.end_time := b;
     Recording.duration := b - a |}.

End SessionRecording.

(** ** Retention *)

Module Retention.

(** Values bound to the named parameters of a query. *)
Inductive value : Type :=
  | VInt (n : Z)
  | VStr (s : string).

#[global] Instance value_eq_dec : EqDecision value.
Proof. solve_decision. Defined.

Definition PERIOD_TRUNC_HOUR : string := "toStartOfHour".
Definition PERIOD_TRUNC_DAY : string := "toStartOfDay".
Definition PERIOD_TRUNC_WEEK : string := "toStartOfWeek".
Definition PERIOD_TRUNC_MONTH : string := "toStartOfMonth".

(** [Entity]: the two attributes read. *)
Record Entity : Type := { id : value; type : string }.

(** One cell and one row of the returned matrix. *)
Record cell : Type := { count : Z; people : list string }.

Section Retention.

(** Types of the collaborators: [datetime] objects, [timedelta] and
    [relativedelta] objects, property filters, stored actions. *)
Context {datetime delta property Action : Type}.

Record row : Type := { values : list cell; label : string; date : datetime }.

(** [Filter]: the attributes the query reads or assigns.  [date_to] is
    not among them: it is read through the class's accessor (see
    [Collaborators]), while lines 31, 40 and 41 assign [_date_to] and
    [_date_from]. *)
Record Filter : Type := {
  period : option string;
  _date_from : option string;
  _date_to : option string;
  properties : list property;
  target_entity : option Entity;
  entities : list Entity;
  retention_type : option string;
}.

(** What the module imports and calls.  None of it is part of the two
    source files; a call that can fail returns a [result]. *)
Class Collaborators : Type := {
  (* posthog.constants *)
  RETENTION_FIRST_TIME : string;
  TREND_FILTER_TYPE_ACTIONS : string;
  TREND_FILTER_TYPE_EVENTS : string;
  (* datetime.timedelta(hours=n), (weeks=n), (days=n); relativedelta(months=n) *)
  timedelta_hours : Z → result delta;
  timedelta_weeks : Z → result delta;
  timedelta_days : Z → result delta;
  relativedelta_months : Z → result delta;
  (* datetime + delta, datetime - delta *)
  dt_add : datetime → delta → result datetime;
  dt_sub : datetime → delta → result datetime;
  (* datetime.replace(hour=, minute=, second=, microsecond=) *)
  dt_replace : datetime → Z → Z → Z → Z → datetime;
  isoformat : datetime → string;
  strftime : datetime → string → string;
  isoweekday : datetime → Z;
  (* django.utils.timezone.now(): the n-th reading of the clock *)
  now : nat → datetime;
  (* the attribute filter.date_to, read from the filter as it stands *)
  date_to : Filter → option datetime;
  parse_prop_clauses : list property → Team → result (string * gmap string value);
  Action_objects_get : value → result Action;
  (* format_action_filter(action, prepend=prepend, use_loop=True) *)
  format_action_filter : Action → string → string * gmap string value;
  (* RETENTION_SQL.format(target_query=, returning_query=, filters=, trunc_func=) *)
  RETENTION_SQL : string → string → string → string → string;
  sync_execute : string → gmap string value → result (list (Z * Z * Z));
}.

Context {C : Collaborators}.

(** *** State

    The method assigns attributes of the [Filter] it is given, reads the
    clock and sends a query: the state holds the filter object, the number
    of clock readings and the queries sent so far.  An exception leaves the
    state as it is at the point of the raise. *)
Record state : Type := {
  filter : Filter;
  clock : nat;
  executed : list (string * gmap string value);
}.

Definition M (A : Type) : Type := state → state * result A.

#[global] Instance M_ret : MRet M := λ A a st, (st, Ok a).
#[global] Instance M_bind : MBind M := λ A B f m st,
  match m st with
  | (st', Ok a) => f a st'
  | (st', Raise e) => (st', Raise e)
  end.

Definition lift {A : Type} (r : result A) : M A := λ st, (st, r).

Definition get_filter : M Filter := λ st, (st, Ok (filter st)).

(** [filter._date_to = v] and [filter._date_from = v] *)
Definition with__date_to (v : string) (f : Filter) : Filter :=
  {| period := period f; _date_from := _date_from f; _date_to := Some v;
     properties := properties f; target_entity := target_entity f;
     entities := entities f; retention_type := retention_type f |}.

Definition with__date_from (v : string) (f : Filter) : Filter :=
  {| period := period f; _date_from := Some v; _date_to := _date_to f;
     properties := properties f; target_entity := target_entity f;
     entities := entities f; retention_type := retention_type f |}.

Definition assign__date_to (v : string) : M unit := λ st,
  ({| filter := with__date_to v (filter st);
      clock := clock st; executed := executed st |}, Ok ()).

Definition assign__date_from (v : string) : M unit := λ st,
  ({| filter := with__date_from v (filter st);
      clock := clock st; executed := executed st |}, Ok ()).

Definition read_clock : M datetime := λ st,
  ({| filter := filter st; clock := S (clock st); executed := executed st |},
   Ok (now (clock st))).

Definition execute (sql : string) (params : gmap string value)
    : M (list (Z * Z * Z)) := λ st,
  ({| filter := filter st; clock := clock st;
      executed := executed st ++ [(sql, params)] |},
   sync_execute sql params).

(** [filter.date_to if filter.date_to else now()] *)
Definition date_to_or_now : M datetime :=
  f ← get_filter;
  match date_to f with
  | Some d => mret d
  | None => read_clock
  end.

(** [filter.period or "Day"] *)
Definition period_or_day (f : Filter) : string :=
  match period f with
  | Some p => if decide (p = "") then "Day" else p
  | None => "Day"
  end.

(** *** [_determineTimedelta] *)
Definition _determineTimedelta (total_intervals : Z) (period : string)
    : result (delta * string * delta) :=
  if decide (period = "Hour") then
    d ← timedelta_hours total_intervals; d1 ← timedelta_hours 1;
    Ok (d, PERIOD_TRUNC_HOUR, d1)
  else if decide (period = "Week") then
    d ← timedelta_weeks total_intervals; d1 ← timedelta_weeks 1;
    Ok (d, PERIOD_TRUNC_WEEK, d1)
  else if decide (period = "Day") then
    d ← timedelta_days total_intervals; d1 ← timedelta_days 1;
    Ok (d, PERIOD_TRUNC_DAY, d1)
  else if decide (period = "Month") then
    d ← relativedelta_months total_intervals; d1 ← relativedelta_months 1;
    Ok (d, PERIOD_TRUNC_MONTH, d1)
  else Raise (ValueError ("Period " +:+ period +:+ " is unsupported.")).

(** *** [_get_condition] *)
Definition _get_condition (target_entity : Entity) (prepend : string)
    : result (string * gmap string value) :=
  if decide (type target_entity = TREND_FILTER_TYPE_ACTIONS) then
    action ← Action_objects_get (id target_entity);
    let '(action_query, params) := format_action_filter action prepend in
    Ok ("e.uuid IN (" +:+ action_query +:+ ")", params)
  else if decide (type target_entity = TREND_FILTER_TYPE_EVENTS) then
    Ok ("e.event = %(" +:+ prepend +:+ "_event)s",
        {[ prepend +:+ "_event" := id target_entity ]})
  else
    Ok ("e.event = %(" +:+ prepend +:+ "_event)s",
        {[ prepend +:+ "_event" := VStr "$pageview" ]}).

Definition pageview : Entity :=
  {| id := VStr "$pageview"; type := TREND_FILTER_TYPE_EVENTS |}.

Definition target_of (f : Filter) : Entity :=
  match target_entity f with
  | None => pageview
  | Some e => e
  end.

Definition first_entity (f : Filter) : Entity :=
  match entities f with
  | [] => pageview
  | e :: _ => e
  end.

(** *** [_get_event_filter] *)
Definition _get_event_filter (f : Filter) (trunc : string)
    : result (string * string * gmap string value) :=
  let first_time_retention :=
    bool_decide (retention_type f = Some RETENTION_FIRST_TIME) in
  let target_entity := target_of f in
  let returning_entity :=
    if first_time_retention then first_entity f else target_entity in
  '(target_query, params) ← _get_condition target_entity "";
  '(returning_query, returning_params) ←
    _get_condition returning_entity (if first_time_retention then "returning" else "");
  let query := "AND " +:+ target_query in
  let returning_query :=
    if first_time_retention then
      "AND (" +:+ target_query +:+ " OR (" +:+ returning_query +:+ " AND "
      +:+ trunc +:+ "(toDateTime(%(start_date)s)) = " +:+ trunc +:+ "(timestamp)))"
    else "AND " +:+ target_query in
  Ok (query, returning_query, returning_params ∪ params).

(** *** [calculate_retention]

    Lines 27-41: the period, its truncation function and the date range. *)
Definition resolve_dates (total_intervals : Z)
    : M (string * string * datetime * datetime) :=
  f ← get_filter;
  let period := period_or_day f in
  '(tdelta, trunc_func, t1) ← lift (_determineTimedelta total_intervals period);
  d ← date_to_or_now;
  shifted ← lift (dt_add d t1);
  assign__date_to (isoformat shifted);;
  '(date_from, date_to) ←
    (if decide (period = "Hour") then
       date_to ← date_to_or_now;
       date_from ← lift (dt_sub date_to tdelta);
       mret (date_from, date_to)
     else
       d ← date_to_or_now;
       let date_to := dt_replace d 0 0 0 0 in
       date_from ← lift (dt_sub date_to tdelta);
       mret (date_from, date_to));
  assign__date_from (isoformat date_from);;
  assign__date_to (isoformat date_to);;
  mret (period, trunc_func, date_from, date_to).

(** Lines 43-66: the one aggregate query. *)
Definition run_query (team : Team) (period trunc_func : string)
    (date_from date_to : datetime) : M (list (Z * Z * Z)) :=
  f ← get_filter;
  '(prop_filters, prop_filter_params) ← lift (parse_prop_clauses (properties f) team);
  '(target_query, returning_query, target_params) ←
    lift (_get_event_filter f trunc_func);
  let fmt := "%Y-%m-%d" +:+
    (if decide (Retention.period f = Some "Hour") then " %H:%M:%S" else " 00:00:00") in
  execute
    (RETENTION_SQL target_query returning_query
       (match properties f with [] => "" | _ => prop_filters end) trunc_func)
    (<["period" := VStr period]>
       (target_params ∪ (prop_filter_params ∪
          (<["end_date" := VStr (strftime date_to fmt)]>
             (<["start_date" := VStr (strftime date_from fmt)]>
                {["team_id" := VInt (pk team)]}))))).

(** Lines 68-71: the fold of the result rows into [result_dict]. *)
Definition fold_rows (rows : list (Z * Z * Z)) : gmap (Z * Z) cell :=
  foldl (λ result_dict res,
           <[(res.1.1, res.1.2) := {| count := res.2; people := [] |}]> result_dict)
        ∅ rows.

(** [result_dict.get((first_day, day), {"count": 0, "people": []})] *)
Definition cell_at (result_dict : gmap (Z * Z) cell) (first_day day : Z) : cell :=
  default {| count := 0; people := [] |} (result_dict !! (first_day, day)).

(** Lines 68-88: the matrix. *)
Definition parse_result (period : string) (date_from : datetime)
    (total_intervals : Z) (rows : list (Z * Z * Z)) : result (list row) :=
  let result_dict := fold_rows rows in
  date_from ←
    (if decide (period = "Week") then
       d ← timedelta_days (isoweekday date_from `mod` 7);
       dt_sub date_from d
     else Ok date_from);
  comprehension
    (λ first_day,
       let values :=
         (λ day, cell_at result_dict first_day day)
           <$> range (total_intervals - first_day) in
       let label := period +:+ " " +:+ pretty first_day in
       '(d, _, _) ← _determineTimedelta first_day period;
       date ← dt_add date_from d;
       Ok {| values := values; label := label; date := date |})
    (range total_intervals).

Definition calculate_retention (team : Team) (total_intervals : Z) : M (list row) :=
  '(period, trunc_func, date_from, date_to) ← resolve_dates total_intervals;
  rows ← run_query team period trunc_func date_from date_to;
  lift (parse_result period date_from total_intervals rows).

(** [run]: [total_intervals] defaults to 11. *)
Definition run (team : Team) (total_intervals : option Z) : M (list row) :=
  calculate_retention team (default 11 total_intervals).

(** *** The predicates as condition trees

    [_get_event_filter] produces SQL text.  To say which events a
    predicate admits, the text is read as the rendering of a condition
    tree: [render] gives the text of a tree, [holds] its truth on an
    event. *)
Inductive cond : Type :=
  | EventIs (param : string)            (* e.event = %(param)s *)
  | UuidIn (action_query : string)      (* e.uuid IN (action_query) *)
  | SameBucket (trunc : string)         (* trunc(toDateTime(%(start_date)s)) = trunc(timestamp) *)
  | And (a b : cond)                    (* (a AND b) *)
  | Or (a b : cond).                    (* (a OR b) *)

Fixpoint render (c : cond) : string :=
  match c with
  | EventIs param => "e.event = %(" +:+ param +:+ ")s"
  | UuidIn action_query => "e.uuid IN (" +:+ action_query +:+ ")"
  | SameBucket trunc =>
      trunc +:+ "(toDateTime(%(start_date)s)) = " +:+ trunc +:+ "(timestamp)"
  | And a b => "(" +:+ render a +:+ " AND " +:+ render b +:+ ")"
  | Or a b => "(" +:+ render a +:+ " OR " +:+ render b +:+ ")"
  end.

(** A row of the events table, as far as the predicates look at it. *)
Record event_row : Type := { event : value; uuid : string; timestamp : Z }.

(** The reading of what the text leaves open: the instant that
    [%(start_date)s] denotes, what a truncation function does to an
    instant, and which rows an action's subquery selects. *)
Record reading : Type := {
  start_date : Z;
  truncate : string → Z → Z;
  selects : string → gmap string value → string → bool;
}.

Definition in_anchor_bucket (R : reading) (trunc : string) (e : event_row) : bool :=
  bool_decide (truncate R trunc (start_date R) = truncate R trunc (timestamp e)).

Fixpoint holds (R : reading) (params : gmap string value) (c : cond)
    (e : event_row) : bool :=
  match c with
  | EventIs param => bool_decide (params !! param = Some (event e))
  | UuidIn action_query => selects R action_query params (uuid e)
  | SameBucket trunc => in_anchor_bucket R trunc e
  | And a b => holds R params a e && holds R params b e
  | Or a b => holds R params a e || holds R params b e
  end.

(** [_get_condition], as a tree. *)
Definition condition_of (target_entity : Entity) (prepend : string)
    : result (cond * gmap string value) :=
  if decide (type target_entity = TREND_FILTER_TYPE_ACTIONS) then
    action ← Action_objects_get (id target_entity);
    let '(action_query, params) := format_action_filter action prepend in
    Ok (UuidIn action_query, params)
  else if decide (type target_entity = TREND_FILTER_TYPE_EVENTS) then
    Ok (EventIs (prepend +:+ "_event"), {[ prepend +:+ "_event" := id target_entity ]})
  else
    Ok (EventIs (prepend +:+ "_event"), {[ prepend +:+ "_event" := VStr "$pageview" ]}).

(** [_get_event_filter], as trees: the target predicate and the returning
    predicate (each without its leading ["AND "]). *)
Definition event_conditions (f : Filter) (trunc : string)
    : result (cond * cond * gmap string value) :=
  let first_time_retention :=
    bool_decide (retention_type f = Some RETENTION_FIRST_TIME) in
  let target_entity := target_of f in
  let returning_entity :=
    if first_time_retention then first_entity f else target_entity in
  '(target, params) ← condition_of target_entity "";
  '(returning, returning_params) ←
    condition_of returning_entity (if first_time_retention then "returning" else "");
  Ok (target,
      if first_time_retention then Or target (And returning (SameBucket trunc))
      else target,
      returning_params ∪ params).

(** The first-time returning predicate as the specification words it:
    the target action in the anchor bucket, or the returning entity's
    action. *)
Definition first_time_as_stated : Prop :=
  ∀ f trunc target tparams returning rparams c params R e,
    retention_type f = Some RETENTION_FIRST_TIME →
    condition_of (target_of f) "" = Ok (target, tparams) →
    condition_of (first_entity f) "returning" = Ok (returning, rparams) →
    event_conditions f trunc = Ok (target, c, params) →
    holds R params c e
    = (holds R params target e && in_anchor_bucket R trunc e)
      || holds R params returning e.

(** The shape of the matrix as the specification words it: the cells of
    row [i] are indexed by the seen bucket [j] of [[i, N)] and hold the
    folded count of the pair [(i, j)]. *)
Definition matrix_as_stated : Prop :=
  ∀ team N st st' parsed sql params rows,
    0 < N →
    calculate_retention team N st = (st', Ok parsed) →
    executed st' = executed st ++ [(sql, params)] →
    sync_execute sql params = Ok rows →
    Z.of_nat (length parsed) = N
    ∧ ∀ i, 0 ≤ i < N →
        ∃ r, parsed !! Z.to_nat i = Some r
             ∧ Z.of_nat (length (values r)) = N - i
             ∧ ∀ j, i ≤ j < N →
                 values r !! Z.to_nat (j - i) = Some (cell_at (fold_rows rows) i j).

(** The default anchor as the specification words it: with a period other
    than Hour and no [date_to] in the filter, the anchor is the current
    time (some reading of the clock) with hour, minute, second and
    microsecond replaced by zero, and [date_from] is the anchor minus the
    span of [total_intervals] periods. *)
Definition anchor_as_stated : Prop :=
  ∀ N st st' period trunc date_from anchor step trunc' t1,
    period_or_day (filter st) ≠ "Hour" →
    date_to (filter st) = None →
    _determineTimedelta N (period_or_day (filter st)) = Ok (step, trunc', t1) →
    resolve_dates N st = (st', Ok (period, trunc, date_from, anchor)) →
    (∃ n, anchor = dt_replace (now n) 0 0 0 0) ∧ dt_sub anchor step = Ok date_from.

(** What a part of the call leaves alone: every attribute of the filter
    but [_date_from] and [_date_to], and the clock up to [n] readings. *)
Definition assigns_only_dates (n : nat) (st st' : state) : Prop :=
  period (filter st') = period (filter st)
  ∧ properties (filter st') = properties (filter st)
  ∧ target_entity (filter st') = target_entity (filter st)
  ∧ entities (filter st') = entities (filter st)
  ∧ retention_type (filter st') = retention_type (filter st)
  ∧ (clock st ≤ clock st' ≤ clock st + n)%nat.

(** The event name that [_get_condition] binds for an entity that is not
    an action (lines 132-137): its id when its type is the events type,
    ["$pageview"] otherwise. *)
Definition event_name (e : Entity) : value :=
  if decide (type e = TREND_FILTER_TYPE_EVENTS) then id e else VStr "$pageview".

(** The keys that lines 79-80 look up: first bucket [i] of [range(N)] and
    offset [k] of [range(N - i)]. *)
Definition in_triangle (total_intervals : Z) (res : Z * Z * Z) : Prop :=
  0 ≤ res.1.1 < total_intervals ∧ 0 ≤ res.1.2 < total_intervals - res.1.1.

#[global] Instance in_triangle_dec N res : Decision (in_triangle N res).
Proof. unfold in_triangle. apply _. Defined.

End Retention.

Arguments Filter : clear implicits.
Arguments Collaborators : clear implicits.
Arguments row : clear implicits.

End Retention.

(** ** A concrete set of collaborators

    Used to run the retention query on concrete data: a proleptic
    Gregorian calendar for [datetime], fixed query results, and a filter
    class whose [date_to] reads [_date_to], the attribute that line 31
    assigns before lines 34 and 37 read [date_to]. *)

Module Demo.

Import Retention.

Record instant : Type := {
  year : Z; month : Z; day : Z;
  hour : Z; minute : Z; second : Z; microsecond : Z;
}.

Inductive span : Type :=
  | Timedelta (microseconds : Z)
  | Relativedelta (months : Z).

Definition days_from_civil (y m d : Z) : Z :=
  let y := if decide (m ≤ 2) then y - 1 else y in
  let era := y `div` 400 in
  let yoe := y - era * 400 in
  let mp := (m + 9) `mod` 12 in
  let doy := (153 * mp + 2) `div` 5 + d - 1 in
  let doe := yoe * 365 + yoe `div` 4 - yoe `div` 100 + doy in
  era * 146097 + doe - 719468.

Definition civil_from_days (z : Z) : Z * Z * Z :=
  let z := z + 719468 in
  let era := z `div` 146097 in
  let doe := z - era * 146097 in
  let yoe := (doe - doe `div` 1460 + doe `div` 36524 - doe `div` 146096) `div` 365 in
  let doy := doe - (365 * yoe + yoe `div` 4 - yoe `div` 100) in
  let mp := (5 * doy + 2) `div` 153 in
  let d := doy - (153 * mp + 2) `div` 5 + 1 in
  let m := if decide (mp < 10) then mp + 3 else mp - 9 in
  (if decide (m ≤ 2) then yoe + era * 400 + 1 else yoe + era * 400, m, d).

Definition day_microseconds : Z := 86400 * 1000000.

Definition to_microseconds (t : instant) : Z :=
  days_from_civil (year t) (month t) (day t) * day_microseconds
  + ((hour t * 60 + minute t) * 60 + second t) * 1000000 + microsecond t.

Definition of_microseconds (us : Z) : instant :=
  let '(y, m, d) := civil_from_days (us `div` day_microseconds) in
  let r := us `mod` day_microseconds in
  {| year := y; month := m; day := d;
     hour := r `div` 3600000000;
     minute := (r `div` 60000000) `mod` 60;
     second := (r `div` 1000000) `mod` 60;
     microsecond := r `mod` 1000000 |}.

Definition in_range (t : instant) : result instant :=
  if decide (1 ≤ year t ≤ 9999) then Ok t else Raise (LibraryError "OverflowError").

Definition days_in_month (y m : Z) : Z :=
  (if decide (m = 12) then days_from_civil (y + 1) 1 1 else days_from_civil y (m + 1) 1)
  - days_from_civil y m 1.

Definition shift (t : instant) (sign : Z) (d : span) : result instant :=
  match d with
  | Timedelta us => in_range (of_microseconds (to_microseconds t + sign * us))
  | Relativedelta months =>
      let total := year t * 12 + (month t - 1) + sign * months in
      let y := total `div` 12 in
      let m := total `mod` 12 + 1 in
      in_range {| year := y; month := m; day := day t `min` days_in_month y m;
                  hour := hour t; minute := minute t; second := second t;
                  microsecond := microsecond t |}
  end.

Definition timedelta (unit_microseconds n : Z) : result span :=
  if decide (Z.abs ((n * unit_microseconds) `div` day_microseconds) ≤ 999999999)
  then Ok (Timedelta (n * unit_microseconds))
  else Raise (LibraryError "OverflowError").

Definition pad (width : nat) (n : Z) : string :=
  let digits := pretty n in
  String.concat "" (replicate (width - String.length digits) "0") +:+ digits.

Definition isoformat (t : instant) : string :=
  pad 4 (year t) +:+ "-" +:+ pad 2 (month t) +:+ "-" +:+ pad 2 (day t) +:+ "T"
  +:+ pad 2 (hour t) +:+ ":" +:+ pad 2 (minute t) +:+ ":" +:+ pad 2 (second t)
  +:+ (if decide (microsecond t = 0) then "" else "." +:+ pad 6 (microsecond t)).

(** Reading back what [isoformat] writes:
    [YYYY-MM-DDTHH:MM:SS], with [.ffffff] when there are microseconds. *)
Definition digit (c : Ascii.ascii) : option Z :=
  let n := Z.of_N (Ascii.N_of_ascii c) in
  if decide (48 ≤ n ≤ 57) then Some (n - 48) else None.

Fixpoint number_go (s : string) (acc : Z) : option Z :=
  match s with
  | EmptyString => Some acc
  | String c rest => d ← digit c; number_go rest (10 * acc + d)
  end.

Definition number (s : string) : option Z :=
  match s with
  | EmptyString => None
  | _ => number_go s 0
  end.

Definition fromisoformat (s : string) : option instant :=
  y ← number (String.substring 0 4 s);
  mo ← number (String.substring 5 2 s);
  d ← number (String.substring 8 2 s);
  h ← number (String.substring 11 2 s);
  mi ← number (String.substring 14 2 s);
  se ← number (String.substring 17 2 s);
  us ← (if decide (String.length s = 19%nat) then Some 0
        else number (String.substring 20 6 s));
  Some {| year := y; month := mo; day := d;
          hour := h; minute := mi; second := se; microsecond := us |}.

Definition skip2 (s : string) : string :=
  match s with
  | String _ (String _ rest) => rest
  | _ => ""
  end.

Fixpoint strftime_go (fuel : nat) (t : instant) (fmt : string) : string :=
  match fuel with
  | O => ""
  | S fuel =>
      if String.prefix "%Y" fmt then pad 4 (year t) +:+ strftime_go fuel t (skip2 fmt)
      else if String.prefix "%m" fmt then pad 2 (month t) +:+ strftime_go fuel t (skip2 fmt)
      else if String.prefix "%d" fmt then pad 2 (day t) +:+ strftime_go fuel t (skip2 fmt)
      else if String.prefix "%H" fmt then pad 2 (hour t) +:+ strftime_go fuel t (skip2 fmt)
      else if String.prefix "%M" fmt then pad 2 (minute t) +:+ strftime_go fuel t (skip2 fmt)
      else if String.prefix "%S" fmt then pad 2 (second t) +:+ strftime_go fuel t (skip2 fmt)
      else match fmt with
           | String c rest => String c (strftime_go fuel t rest)
           | EmptyString => ""
           end
  end.

Definition strftime (t : instant) (fmt : string) : string :=
  strftime_go (String.length fmt) t fmt.

Definition isoweekday (t : instant) : Z :=
  (days_from_civil (year t) (month t) (day t) + 3) `mod` 7 + 1.

(** Friday 20 November 2020, 14:35:07, the n-th reading n microseconds on. *)
Definition now (n : nat) : instant :=
  {| year := 2020; month := 11; day := 20; hour := 14; minute := 35; second := 7;
     microsecond := Z.of_nat n `mod` 1000000 |}.

(** One stored action, with primary key 1. *)
Definition Action_objects_get (id : value) : result string :=
  match id with
  | VInt 1 => Ok "SELECT uuid FROM events WHERE event = 'sign up'"
  | _ => Raise (LibraryError "Action.DoesNotExist")
  end.

Definition RETENTION_SQL (target_query returning_query filters trunc_func : string)
    : string :=
  "SELECT first, " +:+ trunc_func +:+ "(timestamp), count FROM events WHERE 1 "
  +:+ target_query +:+ " " +:+ returning_query +:+ " " +:+ filters.

(** The collaborators, over a database that answers every query with
    [rows]. *)
Definition collaborators (rows : list (Z * Z * Z))
    : Collaborators instant span string string :=
  {| RETENTION_FIRST_TIME := "retention_first_time";
     TREND_FILTER_TYPE_ACTIONS := "actions";
     TREND_FILTER_TYPE_EVENTS := "events";
     timedelta_hours := timedelta 3600000000;
     timedelta_weeks := timedelta (7 * day_microseconds);
     timedelta_days := timedelta day_microseconds;
     relativedelta_months := λ n, Ok (Relativedelta n);
     dt_add := λ t d, shift t 1 d;
     dt_sub := λ t d, shift t (-1) d;
     dt_replace := λ t h m s us,
       {| year := year t; month := month t; day := day t;
          hour := h; minute := m; second := s; microsecond := us |};
     Retention.isoformat := isoformat;
     Retention.strftime := strftime;
     Retention.isoweekday := isoweekday;
     Retention.now := now;
     date_to := λ f, _date_to f ≫= fromisoformat;
     parse_prop_clauses := λ props _,
       Ok (String.concat " " ((λ p, "AND " +:+ p) <$> props), ∅);
     Retention.Action_objects_get := Action_objects_get;
     format_action_filter := λ action _, (action, ∅);
     Retention.RETENTION_SQL := RETENTION_SQL;
     sync_execute := λ _ _, Ok rows |}.

Definition a_filter (period : option string) (retention_type : option string)
    (target : option Entity) (returning : list Entity) : Filter string :=
  {| Retention.period := period; _date_from := None; _date_to := None;
     properties := []; target_entity := target; entities := returning;
     Retention.retention_type := retention_type |}.

Definition a_state (f : Filter string) : state :=
  {| filter := f; clock := 0; executed := [] |}.

(** A run over three days on a database with three result rows. *)
Definition three_rows : list (Z * Z * Z) := [(0, 0, 3); (0, 1, 2); (1, 1, 5)].

Definition daily : Filter string := a_filter (Some "Day") None None [].

Definition three_days : state * result (list (row instant)) :=
  calculate_retention (C := collaborators three_rows) team7 3 (a_state daily).

Definition three_days_matrix : list (row instant) :=
  match three_days.2 with
  | Ok parsed => parsed
  | Raise _ => []
  end.

Definition three_days_query : string * gmap string value :=
  default ("", ∅) (last (executed three_days.1)).

Definition midnight (y m d : Z) : instant :=
  {| year := y; month := m; day := d;
     hour := 0; minute := 0; second := 0; microsecond := 0 |}.

(** A first-time filter: cohort by "sign up", return by "purchase". *)
Definition first_time_filter : Filter string :=
  a_filter (Some "Day") (Some "retention_first_time")
    (Some {| id := VStr "sign up"; type := "events" |})
    [{| id := VStr "purchase"; type := "events" |}].

(** A reading of the predicates: instants are hours, the range starts at
    hour 0, every truncation is to the day. *)
Definition hours : reading :=
  {| start_date := 0;
     truncate := λ _ t, t `div` 24 * 24;
     selects := λ _ _ _, false |}.

(** A purchase and a sign-up, both on the second day. *)
Definition late_purchase : event_row :=
  {| event := VStr "purchase"; uuid := "u1"; timestamp := 30 |}.

Definition late_sign_up : event_row :=
  {| event := VStr "sign up"; uuid := "u2"; timestamp := 30 |}.

(** A run over three hours, and a run over three days on a database that
    answers with two rows for the pair (0, 0). *)
Definition hourly : Filter string := a_filter (Some "Hour") None None [].

Definition twice : list (Z * Z * Z) := [(0, 0, 3); (0, 0, 4)].

Definition twice_run : state * result (list (row instant)) :=
  calculate_retention (C := collaborators twice) team7 3 (a_state daily).

Definition matrix_of (run : @state string * result (list (row instant)))
    : list (row instant) :=
  match run.2 with
  | Ok parsed => parsed
  | Raise _ => []
  end.

Definition query_of (run : @state string * result (list (row instant)))
    : string * gmap string value :=
  default ("", ∅) (last (executed run.1)).

End Demo.

(** ** Strings *)

Lemma append_cons ch (a b : string) : String ch a +:+ b = String ch (a +:+ b).
Proof. reflexivity. Qed.

Lemma append_nil_r (a : string) : a +:+ "" = a.
Proof. induction a as [|ch a IH]; [done|]. by rewrite append_cons, IH. Qed.

Lemma append_assoc (a b c : string) : (a +:+ b) +:+ c = a +:+ (b +:+ c).
Proof. induction a as [|ch a IH]; [done|]. by rewrite !append_cons, IH. Qed.

(** ** Facts about session recordings *)

Module SessionRecordingFacts.

Import SessionRecording.

Section Merge.

Context {json : Type}.
Variable json_loads : string → result json.
Variable team : Team.
Variable session_id : string.

Abbreviation item := (@item json).
Abbreviation verdict := (@verdict json).
Abbreviation collected := (foldl collect start).
Abbreviation message := (missing_chunks_message team session_id).

Implicit Types (l : list item) (g : string) (x : item) (vs : list verdict).

(** *** The first loop *)

Lemma first_fragment_of_group g l x : first_fragment g l = Some x → of_group g x.
Proof.
  unfold first_fragment. intros H%head_Some_elem_of.
  by apply list_elem_of_filter in H as [? _].
Qed.

Lemma first_fragment_snoc g l x :
  first_fragment g (l ++ [x]) =
  match first_fragment g l with
  | Some y => Some y
  | None => if decide (of_group g x) then Some x else None
  end.
Proof.
  unfold first_fragment. rewrite filter_app.
  destruct (filter (of_group g) l) as [|y k] eqn:E; simpl.
  - rewrite filter_cons, filter_nil. by destruct (decide (of_group g x)).
  - done.
Qed.

Lemma received_snoc g l x :
  received g (l ++ [x]) =
  match x with
  | Chunk s i _ d => if decide (s = g) then <[i := d]> (received g l) else received g l
  | Whole _ => received g l
  end.
Proof. unfold received. by rewrite foldl_snoc. Qed.

Lemma received_unseen g l : first_fragment g l = None → received g l = ∅.
Proof.
  induction l as [|x l IH] using rev_ind; [done|].
  rewrite first_fragment_snoc, received_snoc.
  destruct (first_fragment g l); [done|].
  destruct x as [s i n d|w]; simpl.
  - destruct (decide (s = g)); [done|]. intros _. by apply IH.
  - intros _. by apply IH.
Qed.

Lemma collector_of_None g l : collector_of g l = None ↔ first_fragment g l = None.
Proof.
  unfold collector_of. destruct (first_fragment g l) as [[]|] eqn:E; try done.
  by apply first_fragment_of_group in E.
Qed.

Lemma collected_lookup l g :
  snapshot_collectors (collected l) !! g = collector_of g l.
Proof.
  induction l as [|x l IH] using rev_ind in g |- *; [done|].
  rewrite foldl_snoc. destruct x as [s i n d|w]; simpl.
  - unfold collector_of. rewrite first_fragment_snoc, received_snoc. simpl.
    destruct (snapshot_collectors (collected l) !! s) as [c|] eqn:Hs.
    + rewrite IH in Hs. destruct (decide (s = g)) as [->|Hne].
      * rewrite lookup_alter_eq, IH. unfold collector_of in *.
        destruct (first_fragment g l) as [[]|]; by simplify_eq.
      * rewrite lookup_alter_ne, IH by done. unfold collector_of.
        by destruct (first_fragment g l) as [[]|].
    + rewrite IH in Hs. apply collector_of_None in Hs. simpl.
      destruct (decide (s = g)) as [->|Hne].
      * rewrite lookup_alter_eq, lookup_insert_eq, Hs. simpl.
        by rewrite (received_unseen _ _ Hs).
      * rewrite lookup_alter_ne, lookup_insert_ne, IH by done. unfold collector_of.
        by destruct (first_fragment g l) as [[]|].
  - rewrite IH. unfold collector_of. rewrite first_fragment_snoc, received_snoc. simpl.
    by destruct (first_fragment g l) as [[]|].
Qed.

Lemma first_seen_snoc seen l x :
  first_seen seen (l ++ [x]) =
  first_seen seen l ++
  match x with
  | Chunk g _ _ _ =>
      if decide (g ∈ seen) then []
      else match first_fragment g l with
           | Some _ => []
           | None => [IsCollector g]
           end
  | Whole data => [IsSnapshot data]
  end.
Proof.
  induction l as [|y l IH] in seen |- *; simpl.
  - destruct x as [g i n d|w]; simpl; [|done]. by destruct (decide (g ∈ seen)).
  - destruct y as [s j m e|w]; simpl.
    + destruct (decide (s ∈ seen)) as [Hin|Hout].
      * rewrite IH. f_equal. destruct x as [g i n d|w']; [|done].
        destruct (decide (g ∈ seen)); [done|].
        unfold first_fragment. rewrite filter_cons.
        destruct (decide (of_group g (Chunk s j m e))) as [Hg|]; [|done].
        simpl in Hg. by subst.
      * rewrite IH. simpl. f_equal. f_equal. destruct x as [g i n d|w']; [|done].
        unfold first_fragment. rewrite filter_cons.
        destruct (decide (of_group g (Chunk s j m e))) as [Hg|Hg]; simpl in Hg.
        -- subst. rewrite decide_True by set_solver. simpl. by destruct (decide (g ∈ seen)).
        -- destruct (decide (g ∈ seen)).
           ++ by rewrite decide_True by set_solver.
           ++ by rewrite decide_False by set_solver.
    + rewrite IH. simpl. f_equal.
Qed.

Lemma collected_slots l : snapshots_and_collectors (collected l) = first_seen ∅ l.
Proof.
  induction l as [|x l IH] using rev_ind; [done|].
  rewrite foldl_snoc, first_seen_snoc. destruct x as [s i n d|w]; simpl.
  - rewrite decide_False by set_solver.
    destruct (snapshot_collectors (collected l) !! s) as [c|] eqn:Hs;
      rewrite collected_lookup in Hs; simpl.
    + destruct (first_fragment s l) eqn:E.
      * by rewrite IH, app_nil_r.
      * apply collector_of_None in E. congruence.
    + apply collector_of_None in Hs. by rewrite Hs, IH.
  - by rewrite IH.
Qed.

(** *** The second loop *)

Lemma emit_deliver l slots snapshots captured :
  emit json_loads team session_id (snapshot_collectors (collected l)) slots
       snapshots captured
  = deliver team session_id (omap (verdict_of json_loads l) slots) snapshots captured.
Proof.
  induction slots as [|[g|w] slots IH] in snapshots, captured |- *; simpl; [done| |done].
  rewrite collected_lookup. unfold collector_of, declared_count.
  destruct (first_fragment g l) as [[s i n d|w]|] eqn:E; simpl; [|done|done].
  unfold group_verdict.
  destruct (gather (received g l) (range n) "") as [data|]; simpl; [|done].
  by destruct (json_loads data).
Qed.

Lemma merge_deliver l :
  merge_snapshot_chunks json_loads team session_id l
  = deliver team session_id (verdicts json_loads l) [] [].
Proof.
  unfold merge_snapshot_chunks, verdicts. by rewrite emit_deliver, collected_slots.
Qed.

(** *** Delivery *)

Lemma deliver_captured vs (snapshots : list json) captured :
  (deliver team session_id vs snapshots captured).1
  = captured ++ replicate (reports vs) message.
Proof.
  induction vs as [|[v| |e] vs IH] in snapshots, captured |- *; simpl.
  - by rewrite app_nil_r.
  - apply IH.
  - rewrite IH. by rewrite <-app_assoc.
  - by rewrite app_nil_r.
Qed.

Lemma deliver_outcome vs (snapshots : list json) captured captured' :
  (deliver team session_id vs snapshots captured).2
  = (deliver team session_id vs snapshots captured').2.
Proof.
  induction vs as [|[v| |e] vs IH] in snapshots, captured, captured' |- *; simpl; auto.
Qed.

Lemma deliver_skip_outcome vs1 vs2 (snapshots : list json) captured :
  (deliver team session_id (vs1 ++ Incomplete :: vs2) snapshots captured).2
  = (deliver team session_id (vs1 ++ vs2) snapshots captured).2.
Proof.
  induction vs1 as [|[v| |e] vs1 IH] in snapshots, captured |- *; simpl; auto.
  apply deliver_outcome.
Qed.

Lemma deliver_skip_reports vs1 vs2 (snapshots : list json) captured :
  is_Ok (deliver team session_id (vs1 ++ Incomplete :: vs2) snapshots captured).2 →
  reports (vs1 ++ Incomplete :: vs2) = S (reports (vs1 ++ vs2)).
Proof.
  induction vs1 as [|[v| |e] vs1 IH] in snapshots, captured |- *; simpl; eauto.
  done.
Qed.

Lemma deliver_returned vs (snapshots out : list json) captured :
  (deliver team session_id vs snapshots captured).2 = Ok out →
  out = snapshots ++ omap emitted vs.
Proof.
  induction vs as [|[v| |e] vs IH] in snapshots, captured |- *; simpl.
  - intros [= <-]. by rewrite app_nil_r.
  - intros ->%IH. by rewrite <-app_assoc.
  - apply IH.
  - done.
Qed.

(** *** Removing a group from the stream *)

Lemma drop_group_snoc g l x :
  drop_group g (l ++ [x]) = drop_group g l ++ (if decide (of_group g x) then [] else [x]).
Proof.
  unfold drop_group. rewrite filter_app, filter_cons, filter_nil.
  destruct (decide (of_group g x)).
  - by rewrite decide_False by tauto.
  - by rewrite decide_True by tauto.
Qed.

Lemma first_fragment_drop_same g l : first_fragment g (drop_group g l) = None.
Proof.
  induction l as [|x l IH] using rev_ind; [done|].
  rewrite drop_group_snoc. destruct (decide (of_group g x)).
  - by rewrite app_nil_r.
  - rewrite first_fragment_snoc, IH. by rewrite decide_False.
Qed.

Lemma first_fragment_drop_other g g' l :
  g' ≠ g → first_fragment g' (drop_group g l) = first_fragment g' l.
Proof.
  intros Hne. induction l as [|x l IH] using rev_ind; [done|].
  rewrite drop_group_snoc, (first_fragment_snoc g' l). destruct (decide (of_group g x)) as [Hg|Hg].
  - rewrite app_nil_r, IH. destruct (first_fragment g' l); [done|].
    rewrite decide_False; [done|]. destruct x; simpl in *; congruence.
  - by rewrite first_fragment_snoc, IH.
Qed.

Lemma received_drop_other g g' l :
  g' ≠ g → received g' (drop_group g l) = received g' l.
Proof.
  intros Hne. induction l as [|x l IH] using rev_ind; [done|].
  rewrite drop_group_snoc, (received_snoc g' l). destruct (decide (of_group g x)) as [Hg|Hg].
  - rewrite app_nil_r, IH. destruct x as [s i n d|w]; simpl in *; [|done].
    subst. by rewrite decide_False.
  - by rewrite received_snoc, IH.
Qed.

Lemma verdict_of_drop_other g l (s : @slot json) :
  s ≠ IsCollector g →
  verdict_of json_loads (drop_group g l) s = verdict_of json_loads l s.
Proof.
  destruct s as [r|w]; simpl; [|done]. intros Hne.
  assert (r ≠ g) by congruence.
  unfold declared_count. by rewrite first_fragment_drop_other, received_drop_other.
Qed.

Lemma first_seen_elem seen l r :
  IsCollector r ∈ first_seen seen l → (r ∉ seen) ∧ is_Some (first_fragment r l).
Proof.
  induction l as [|x l IH] in seen |- *; simpl.
  - by intros ?%elem_of_nil.
  - unfold first_fragment. rewrite filter_cons. destruct x as [s i n d|w]; simpl.
    + destruct (decide (s ∈ seen)) as [Hin|Hout].
      * intros [? ?]%IH. split; [done|]. destruct (decide (s = r)); [by eexists|done].
      * intros [[= <-]|[Hr ?]%IH]%elem_of_cons.
        -- split; [done|]. rewrite decide_True by done. by eexists.
        -- split; [set_solver|]. destruct (decide (s = r)); [by eexists|done].
    + intros [?|?%IH]%elem_of_cons; [done|done].
Qed.

Lemma first_seen_seen g seen l :
  g ∈ seen → first_seen seen (drop_group g l) = first_seen seen l.
Proof.
  intros Hin. induction l as [|x l IH] in seen, Hin |- *; [done|].
  unfold drop_group. rewrite filter_cons. fold (drop_group g l).
  destruct x as [s i n d|w]; simpl.
  - destruct (decide (¬ s = g)) as [Hne|Heq]; simpl.
    + destruct (decide (s ∈ seen)); [by apply IH|]. f_equal. apply IH. set_solver.
    + assert (s = g) as -> by (by destruct (decide (s = g))).
      rewrite decide_True by done. by apply IH.
  - f_equal. by apply IH.
Qed.

Lemma first_seen_absent g seen l :
  first_fragment g l = None → first_seen ({[g]} ∪ seen) l = first_seen seen l.
Proof.
  induction l as [|x l IH] in seen |- *; [done|].
  unfold first_fragment. rewrite filter_cons. destruct x as [s i n d|w]; simpl.
  - destruct (decide (s = g)) as [->|Hne]; [done|]. intros Hl.
    destruct (decide (s ∈ seen)).
    + rewrite decide_True by set_solver. by apply IH.
    + rewrite decide_False by set_solver. f_equal.
      replace ({[s]} ∪ ({[g]} ∪ seen)) with ({[g]} ∪ ({[s]} ∪ seen)) by set_solver.
      by apply IH.
  - intros Hl. f_equal. by apply IH.
Qed.

Lemma first_seen_drop g seen l :
  g ∉ seen → is_Some (first_fragment g l) →
  ∃ s1 s2, first_seen seen l = s1 ++ IsCollector g :: s2
           ∧ first_seen seen (drop_group g l) = s1 ++ s2.
Proof.
  induction l as [|x l IH] in seen |- *; intros Hout Hsome.
  - by destruct Hsome.
  - unfold drop_group. rewrite filter_cons. fold (drop_group g l).
    unfold first_fragment in Hsome. rewrite filter_cons in Hsome.
    destruct x as [s i n d|w]; simpl in *.
    + destruct (decide (s = g)) as [->|Hne].
      * rewrite (decide_False (P := g ∈ seen)) by done.
        rewrite (decide_False (P := g ≠ g)) by (by intros ?).
        exists [], (first_seen ({[g]} ∪ seen) l). split; [done|]. simpl.
        rewrite <-(first_seen_seen g ({[g]} ∪ seen) l) by set_solver.
        by rewrite first_seen_absent by apply first_fragment_drop_same.
      * rewrite (decide_True (P := s ≠ g)) by done. simpl. destruct (decide (s ∈ seen)).
        -- by apply IH.
        -- destruct (IH ({[s]} ∪ seen)) as (s1 & s2 & E1 & E2); [set_solver|done|].
           exists (IsCollector s :: s1), s2. by rewrite E1, E2.
    + destruct (IH seen) as (s1 & s2 & E1 & E2); [done|done|].
      exists (IsSnapshot w :: s1), s2. by rewrite E1, E2.
Qed.

Lemma verdicts_drop g l :
  is_Some (declared_count g l) →
  ∃ vs1 vs2 v,
    verdicts json_loads l = vs1 ++ v :: vs2
    ∧ verdict_of json_loads l (IsCollector g) = Some v
    ∧ verdicts json_loads (drop_group g l) = vs1 ++ vs2.
Proof.
  intros [n Hn]. assert (is_Some (first_fragment g l)) as Hsome.
  { unfold declared_count in Hn. by destruct (first_fragment g l). }
  destruct (first_seen_drop g ∅ l) as (s1 & s2 & E1 & E2); [set_solver|done|].
  exists (omap (verdict_of json_loads l) s1), (omap (verdict_of json_loads l) s2),
    (group_verdict json_loads n (received g l)).
  unfold verdicts. rewrite E1, E2. split; [|split].
  { rewrite omap_app. simpl. by rewrite Hn. }
  { simpl. by rewrite Hn. }
  transitivity (omap (verdict_of json_loads l) (s1 ++ s2)); [|by rewrite omap_app].
  apply list_omap_ext, Forall2_same_length_lookup. split; [done|].
  intros k s s' Hs Hs'. assert (s' = s) as -> by congruence.
  apply verdict_of_drop_other. intros ->.
  apply list_elem_of_lookup_2 in Hs. rewrite <-E2 in Hs.
  apply first_seen_elem in Hs as [_ Hs].
  rewrite first_fragment_drop_same in Hs. by destruct Hs.
Qed.

Lemma gather_None (chunks : gmap Z string) indices data i :
  i ∈ indices → chunks !! i = None ∨ chunks !! i = Some "" →
  gather chunks indices data = None.
Proof.
  induction indices as [|j indices IH] in data |- *; simpl.
  - by intros ?%elem_of_nil.
  - intros [->|Hin]%elem_of_cons Hi.
    + destruct Hi as [-> | ->]; [done|]. by rewrite decide_True.
    + destruct (chunks !! j) as [e|]; [|done].
      destruct (decide (e = "")); [done|]. by apply IH.
Qed.

(** *** Streams that differ in later [chunk_count] fields only *)

Lemma same_but_count_first_seen seen l l' :
  Forall2 same_but_count l l' → first_seen seen l' = first_seen seen l.
Proof.
  intros H. induction H as [|x y l l' Hxy _ IH] in seen |- *; [done|].
  destruct x as [g i n d|w], y as [g' i' n' d'|w']; simpl in Hxy; try done.
  - destruct Hxy as (<- & _ & _). simpl. rewrite !IH. done.
  - subst. simpl. by rewrite IH.
Qed.

Lemma same_but_count_received g l l' :
  Forall2 same_but_count l l' → received g l' = received g l.
Proof.
  unfold received. generalize (∅ : gmap Z string).
  intros m H. induction H as [|x y l l' Hxy _ IH] in m |- *; [done|].
  destruct x as [s i n d|w], y as [s' i' n' d'|w']; simpl in Hxy; try done.
  - destruct Hxy as (<- & <- & <-). simpl. apply IH.
  - simpl. apply IH.
Qed.

(** *** One group alone *)

Lemma gather_all (chunks : gmap Z string) (d : Z → string) indices data :
  (∀ i, i ∈ indices → chunks !! i = Some (d i) ∧ d i ≠ "") →
  gather chunks indices data
  = Some (data +:+ foldr (λ i acc, d i +:+ acc) "" indices).
Proof.
  induction indices as [|j indices IH] in data |- *; simpl; intros H.
  - by rewrite append_nil_r.
  - destruct (H j) as [-> Hne]; [by left|]. rewrite decide_False by done.
    rewrite IH, append_assoc; [done|]. intros i Hi. apply H. by right.
Qed.

Lemma group_stream_snoc g n fs (f : Z * string) :
  group_stream (json := json) g n (fs ++ [f])
  = group_stream g n fs ++ [Chunk g f.1 n f.2].
Proof. unfold group_stream. by rewrite fmap_app. Qed.

Lemma received_group_stream_Some g n fs i s :
  received g (group_stream (json := json) g n fs) !! i = Some s → (i, s) ∈ fs.
Proof.
  induction fs as [|[j e] fs IH] using rev_ind; [done|].
  rewrite group_stream_snoc, received_snoc. simpl. rewrite decide_True by done.
  rewrite lookup_insert. destruct (decide (j = i)) as [->|Hne].
  - intros [= ->]. apply elem_of_app. right. by left.
  - intros H. apply elem_of_app. left. by apply IH.
Qed.

Lemma received_group_stream_is_Some g n fs i s :
  (i, s) ∈ fs → is_Some (received g (group_stream (json := json) g n fs) !! i).
Proof.
  induction fs as [|[j e] fs IH] using rev_ind; [by intros ?%elem_of_nil|].
  rewrite group_stream_snoc, received_snoc. simpl. rewrite decide_True by done.
  rewrite lookup_insert. destruct (decide (j = i)) as [->|Hne]; [by eexists|].
  intros [H|H]%elem_of_app; [by apply IH|].
  apply list_elem_of_singleton in H. congruence.
Qed.

Lemma first_seen_group_stream_seen g n fs seen :
  g ∈ seen → first_seen seen (group_stream (json := json) g n fs) = [].
Proof.
  intros Hin. induction fs as [|f fs IH]; simpl; [done|]. by rewrite decide_True.
Qed.

Lemma verdicts_group_stream g n fs :
  fs ≠ [] →
  verdicts json_loads (group_stream g n fs)
  = [group_verdict json_loads n (received g (group_stream (json := json) g n fs))].
Proof.
  destruct fs as [|f fs]; [done|]. intros _. unfold verdicts. simpl.
  rewrite decide_False by set_solver.
  rewrite first_seen_group_stream_seen by set_solver. simpl.
  unfold declared_count, first_fragment. simpl. rewrite filter_cons.
  rewrite decide_True by done. done.
Qed.

Lemma covered_received g n d fs i :
  covered n d fs → 0 ≤ i < n →
  received g (group_stream (json := json) g n fs) !! i = Some (d i).
Proof.
  intros [Hall Hagree] Hi.
  destruct (received_group_stream_is_Some g n fs i (d i)) as [s Hs]; [by apply Hall|].
  rewrite Hs. f_equal. apply Hagree; [|done]. by eapply received_group_stream_Some.
Qed.

Lemma covered_merge g n d fs :
  fs ≠ [] → covered n d fs → (∀ i, 0 ≤ i < n → d i ≠ "") →
  merge_snapshot_chunks json_loads team session_id (group_stream g n fs)
  = ([], result_map (λ v, [v]) (json_loads (index_ordered n d))).
Proof.
  intros Hfs Hcov Hne. rewrite merge_deliver, verdicts_group_stream by done.
  unfold group_verdict. rewrite (gather_all _ d).
  - change ("" +:+ ?a) with a. fold (index_ordered n d).
    by destruct (json_loads (index_ordered n d)).
  - intros i Hi%elem_of_seqZ. split; [apply covered_received|apply Hne]; [done|lia..].
Qed.

Lemma covered_Permutation n d fs fs' : fs' ≡ₚ fs → covered n d fs → covered n d fs'.
Proof.
  intros Hp [Hall Hagree]. split.
  - intros i Hi. rewrite Hp. by apply Hall.
  - intros i s Hin. rewrite Hp in Hin. by apply Hagree.
Qed.

(** Every collector in the list is in the dictionary: the branch of [emit]
    for a collector that is not is never taken. *)
Lemma slots_live l g :
  IsCollector g ∈ snapshots_and_collectors (collected l) →
  is_Some (snapshot_collectors (collected l) !! g).
Proof.
  rewrite collected_slots, collected_lookup. intros [_ [x Hx]]%first_seen_elem.
  unfold collector_of. rewrite Hx. apply first_fragment_of_group in Hx.
  destruct x; by eauto.
Qed.

(** A collector that holds fewer fragments than declared lacks an index
    below the declared count. *)
Lemma fewer_than_declared (chunks : gmap Z string) n :
  Z.of_nat (size chunks) < n → ∃ i, 0 ≤ i < n ∧ chunks !! i = None.
Proof.
  intros Hsize. destruct (decide (Forall (λ i, is_Some (chunks !! i)) (range n)))
    as [Hall|Hnot].
  - exfalso. assert (list_to_set (range n) ⊆ dom chunks) as Hsub.
    { intros i Hi%elem_of_list_to_set. apply elem_of_dom.
      by eapply Forall_forall in Hall. }
    apply subseteq_size in Hsub.
    rewrite size_list_to_set, size_dom in Hsub by apply NoDup_seqZ.
    unfold range in Hsub. rewrite length_seqZ in Hsub. lia.
  - apply not_Forall_Exists, Exists_exists in Hnot as (i & Hi & Hnone); [|apply _].
    exists i. apply elem_of_seqZ in Hi. split; [lia|].
    by apply eq_None_not_Some.
Qed.

(** *** The properties of [merge_snapshot_chunks] *)

(** C7.  The output follows the order in which the logical units first
    appear in the input: the list the first loop builds is the list of
    units in order of first appearance (a whole payload at its arrival, a
    group at its first fragment), and the call delivers the verdicts of
    these units in that order, whenever each group completes; the list
    returned is the list of their emitted payloads, in that order. *)
Theorem merge_order_first_appearance l :
  snapshots_and_collectors (collected l) = first_seen ∅ l
  ∧ merge_snapshot_chunks json_loads team session_id l
    = deliver team session_id (verdicts json_loads l) [] []
  ∧ ∀ out, (merge_snapshot_chunks json_loads team session_id l).2 = Ok out →
           out = omap emitted (verdicts json_loads l).
Proof.
  split; [apply collected_slots|]. split; [apply merge_deliver|].
  intros out. rewrite merge_deliver. apply deliver_returned.
Qed.

(** C3, amended.  One group whose fragments carry every index below the
    declared count, index [i] always with the same non-empty data [d i]:
    in every arrival order nothing is captured and the outcome is the
    decoding of [d 0 ... d (n-1)] concatenated in index order, as the one
    element of the list returned (or the decoder's exception). *)
Theorem order_independence_nonempty g n d fs fs' :
  fs ≠ [] → covered n d fs → (∀ i, 0 ≤ i < n → d i ≠ "") → fs' ≡ₚ fs →
  merge_snapshot_chunks json_loads team session_id (group_stream g n fs')
  = ([], result_map (λ v, [v]) (json_loads (index_ordered n d))).
Proof.
  intros Hfs Hcov Hne Hp. apply covered_merge; [|by eapply covered_Permutation|done].
  intros ->. apply Permutation_nil_l in Hp. done.
Qed.

End Merge.

Lemma abc_covered : covered 3 abc [(2, "c}"); (0, "{a"); (1, "b")].
Proof.
  split.
  - intros i Hi. assert (i = 0 ∨ i = 1 ∨ i = 2) as [->|[->| ->]] by lia;
      unfold abc; simpl; set_solver.
  - intros i s Hin _. unfold abc. set_solver.
Qed.

(** Witness of C3 amended: the example of the specification. *)
Lemma order_independence_nonempty_witness :
  merge_snapshot_chunks loads_braced team7 "s1"
    (group_stream "A" 3 [(2, "c}"); (0, "{a"); (1, "b")])
  = ([], result_map (λ v, [v]) (loads_braced (index_ordered 3 abc))).
Proof.
  apply (order_independence_nonempty loads_braced team7 "s1" "A" 3 abc
           [(2, "c}"); (0, "{a"); (1, "b")]).
  - done.
  - exact abc_covered.
  - intros i Hi. unfold abc. repeat case_decide; done.
  - reflexivity.
Defined.

(** Counterexample to C3 as stated: both indices of the group are present,
    index 1 with empty data.  The index-ordered concatenation decodes, yet
    nothing is emitted and the group is reported. *)
Lemma order_independence_fails_on_empty_chunk :
  ¬ order_independence_as_stated loads_braced.
Proof.
  intros H.
  specialize (H team7 "s1" "A" 2 braces_then_nothing [(0, "{}"); (1, "")]
                [(0, "{}"); (1, "")]).
  assert (merge_snapshot_chunks loads_braced team7 "s1"
            (group_stream "A" 2 [(0, "{}"); (1, "")])
          = (["Did not find all session recording chunks! Team: 7, Session: s1"], Ok []))
    as E by reflexivity.
  rewrite E in H. discriminate H; [done| |done].
  split.
  - intros i Hi. assert (i = 0 ∨ i = 1) as [->| ->] by lia;
      unfold braces_then_nothing; simpl; set_solver.
  - intros i s Hin _. unfold braces_then_nothing. set_solver.
Qed.

(** The examples of the specification.  Fragments c, a, b of one group
    arrive in this order and decode as one payload. *)
Example chunks_out_of_order :
  merge_snapshot_chunks loads_braced team7 "s1"
    [Chunk "A" 2 3 "c}"; Chunk "A" 0 3 "{a"; Chunk "A" 1 3 "b"]
  = ([], Ok ["{abc}"]).
Proof. reflexivity. Qed.

(** Group A is first seen before the whole payload and before group B,
    and completes last: its payload still comes first. *)
Example completion_order_is_not_output_order :
  merge_snapshot_chunks loads_braced team7 "s1"
    [Chunk "A" 1 2 "a}"; Whole "w"; Chunk "B" 0 1 "{b}"; Chunk "A" 0 2 "{a"]
  = ([], Ok ["{aa}"; "w"; "{b}"]).
Proof. reflexivity. Qed.

(** The second fragment of A declares a count of 1; the count of the first
    fragment, 2, is the one that is used. *)
Example later_count_ignored :
  merge_snapshot_chunks loads_braced team7 "s1"
    [Chunk "A" 0 2 "{a"; Chunk "A" 1 1 "a}"]
  = ([], Ok ["{aa}"]).
Proof. reflexivity. Qed.

(** A group whose text does not decode ends the call with the decoder's
    exception: the whole payload that precedes it is not returned. *)
Example malformed_group_raises :
  merge_snapshot_chunks loads_braced team7 "s1"
    [Whole "w"; Chunk "A" 0 1 "not json"]
  = ([], Raise (JSONDecodeError "not json")).
Proof. reflexivity. Qed.

(** *** Correlation *)

(** C4.  [matches] holds exactly when the ids agree, the closed intervals
    overlap and, with the unseen-only filter on, the recording has not been
    viewed; [collect_matching_recordings] yields, in the order of the
    candidates, one entry for each candidate that matches. *)
Theorem matches_correlation (session : Session.t) (filter : SessionsFilter)
    (viewed : gset string) :
  (∀ r, matches session r filter viewed = true ↔
        Session.distinct_id session = Recording.distinct_id r
        ∧ Session.start_time session ≤ Recording.end_time r
        ∧ Session.end_time session >= Recording.start_time r
        ∧ (recording_unseen_filter filter = true → Recording.session_id r ∉ viewed))
  ∧ ∀ rs, collect_matching_recordings session rs filter viewed
          = (λ r, {| id := Recording.session_id r;
                     SessionRecording.viewed :=
                       bool_decide (Recording.session_id r ∈ viewed) |})
            <$> base.filter (λ r, matches session r filter viewed = true) rs.
Proof.
  split.
  - intros r. unfold matches.
    rewrite !andb_true_iff, orb_true_iff, !negb_true_iff,
      !bool_decide_eq_true, bool_decide_eq_false.
    destruct (recording_unseen_filter filter); naive_solver.
  - induction rs as [|r rs IH]; [done|]. simpl. rewrite filter_cons.
    destruct (matches session r filter viewed) eqn:E.
    + rewrite decide_True by done. simpl. by rewrite IH.
    + rewrite decide_False by done. done.
Qed.

(** The examples of the specification. *)
Example overlap_correlation :
  let session := {| Session.distinct_id := "u1"; Session.start_time := 10;
                    Session.end_time := 20 |} in
  let candidate d a b := {| Recording.session_id := "r"; Recording.distinct_id := d;
                            Recording.start_time := a; Recording.end_time := b;
                            Recording.duration := b - a |} in
  let off := {| recording_unseen_filter := false |} in
  matches session (candidate "u1" 15 25) off ∅ = true
  ∧ matches session (candidate "u1" 21 30) off ∅ = false
  ∧ matches session (candidate "u2" 10 20) off ∅ = false.
Proof. done. Qed.

Example unseen_filter :
  let session := {| Session.distinct_id := "u1"; Session.start_time := 10;
                    Session.end_time := 20 |} in
  let candidate r := {| Recording.session_id := r; Recording.distinct_id := "u1";
                        Recording.start_time := 15; Recording.end_time := 25;
                        Recording.duration := 10 |} in
  collect_matching_recordings session [candidate "r1"; candidate "r2"]
    {| recording_unseen_filter := true |} {["r1"]}
  = [{| id := "r2"; viewed := false |}].
Proof. reflexivity. Qed.

(** *** Further properties of [merge_snapshot_chunks] *)

Section Streams.

Context {json : Type}.
Variable json_loads : string → result json.
Variable team : Team.
Variable session_id : string.

Abbreviation item' := (@item json).
Abbreviation message' := (missing_chunks_message team session_id).

Implicit Types (l : list item') (g : string) (x y : item').

Lemma gather_ext (m m' : gmap Z string) indices data :
  (∀ j, j ∈ indices → m !! j = m' !! j) →
  gather m indices data = gather m' indices data.
Proof.
  induction indices as [|j indices IH] in data |- *; simpl; [done|]. intros H.
  rewrite <-(H j) by (by left). destruct (m !! j) as [d|]; [|done].
  destruct (decide (d = "")); [done|]. apply IH. intros k Hk. apply H. by right.
Qed.

(** The outcome depends on the stream through the order of first
    appearance, the declared counts and the data recorded at the indices
    below them. *)
Lemma merge_ext l l' :
  first_seen ∅ l' = first_seen ∅ l →
  (∀ g, declared_count g l' = declared_count g l) →
  (∀ g n i, declared_count g l = Some n → 0 ≤ i < n →
            received g l' !! i = received g l !! i) →
  merge_snapshot_chunks json_loads team session_id l'
  = merge_snapshot_chunks json_loads team session_id l.
Proof.
  intros Hseen Hcount Hdata. rewrite !merge_deliver. f_equal. unfold verdicts.
  rewrite Hseen. apply list_omap_ext, Forall_Forall2_diag, Forall_forall.
  intros [g|w] _; simpl; [|done]. rewrite Hcount.
  destruct (declared_count g l) as [n|] eqn:En; [|done]. simpl. f_equal.
  unfold group_verdict. erewrite gather_ext; [done|].
  intros j Hj%elem_of_seqZ. apply (Hdata g n); [done|lia].
Qed.

Lemma sent_snoc g i l x :
  sent g i (l ++ [x])
  = sent g i l ++
    match x with
    | Chunk s j _ d => if decide (s = g ∧ j = i) then [d] else []
    | Whole _ => []
    end.
Proof.
  unfold sent. rewrite omap_app. f_equal. simpl.
  destruct x as [s j n d|w]; [|done]. by destruct (decide (s = g ∧ j = i)).
Qed.

(** What a collector holds at an index is the data of the last fragment
    that carried it. *)
Lemma received_lookup g l i : received g l !! i = last (sent g i l).
Proof.
  induction l as [|x l IH] using rev_ind; [done|].
  rewrite received_snoc, sent_snoc. destruct x as [s j n d|w].
  - destruct (decide (s = g)) as [->|Hs].
    + rewrite lookup_insert. destruct (decide (j = i)) as [->|Hj].
      * rewrite decide_True by done. by rewrite last_snoc.
      * rewrite decide_False by tauto. by rewrite app_nil_r.
    + rewrite decide_False by tauto. by rewrite app_nil_r.
  - by rewrite app_nil_r.
Qed.

Lemma sent_app g i l1 l2 : sent g i (l1 ++ l2) = sent g i l1 ++ sent g i l2.
Proof. unfold sent. apply omap_app. Qed.

Lemma groups_cons x l :
  groups (x :: l)
  = match x with
    | Chunk s _ _ _ => {[s]} ∪ groups l
    | Whole _ => groups l
    end.
Proof. unfold groups. by destruct x. Qed.

Lemma first_seen_app seen l1 l2 :
  first_seen seen (l1 ++ l2)
  = first_seen seen l1 ++ first_seen (groups l1 ∪ seen) l2.
Proof.
  induction l1 as [|x l1 IH] in seen |- *; simpl.
  - f_equal. unfold groups. simpl. set_solver.
  - rewrite groups_cons. destruct x as [s j n d|w].
    + destruct (decide (s ∈ seen)).
      * rewrite IH. do 2 f_equal. set_solver.
      * rewrite IH. simpl. do 3 f_equal. set_solver.
    + rewrite IH. done.
Qed.

Lemma first_fragment_app g l1 l2 :
  first_fragment g (l1 ++ l2)
  = match first_fragment g l1 with
    | Some x => Some x
    | None => first_fragment g l2
    end.
Proof.
  unfold first_fragment. rewrite filter_app.
  by destruct (filter (of_group g) l1).
Qed.

Lemma groups_first_fragment g l : g ∈ groups l ↔ is_Some (first_fragment g l).
Proof.
  induction l as [|x l IH]; simpl.
  - unfold groups, first_fragment. simpl. split; [set_solver|by intros [? ?]].
  - rewrite groups_cons. unfold first_fragment in *. rewrite filter_cons.
    destruct x as [s j n d|w]; simpl; [|done].
    destruct (decide (s = g)) as [->|Hne]; simpl.
    + split; [by eexists|set_solver].
    + rewrite <-IH. set_solver.
Qed.

(** A fragment of a group that is already open changes neither the order
    of first appearance nor any declared count. *)
Lemma late_first_seen l1 x l2 :
  late l1 x → first_seen ∅ (l1 ++ x :: l2) = first_seen ∅ (l1 ++ l2).
Proof.
  intros Hlate. rewrite !first_seen_app. f_equal.
  destruct x as [s j n d|w]; [|done]. simpl in *.
  rewrite decide_True by set_solver. done.
Qed.

Lemma late_declared_count l1 x l2 g :
  late l1 x → declared_count g (l1 ++ x :: l2) = declared_count g (l1 ++ l2).
Proof.
  intros Hlate. unfold declared_count. rewrite !first_fragment_app.
  destruct (first_fragment g l1) eqn:E; [done|].
  destruct x as [s j n d|w]; [|done]. simpl in Hlate.
  unfold first_fragment at 1. rewrite filter_cons.
  destruct (decide (of_group g (Chunk s j n d))) as [Hg|Hg]; [|done].
  simpl in Hg. subst. apply groups_first_fragment in Hlate.
  rewrite E in Hlate. by destruct Hlate.
Qed.

Lemma first_seen_wholes seen (ds : list json) :
  first_seen seen (Whole <$> ds) = IsSnapshot <$> ds.
Proof. induction ds as [|d ds IH]; csimpl; [done|]. by rewrite IH. Qed.

Lemma deliver_emitted (ds snapshots : list json) captured :
  deliver team session_id (Emitted <$> ds) snapshots captured
  = (captured, Ok (snapshots ++ ds)).
Proof.
  induction ds as [|d ds IH] in snapshots |- *; csimpl.
  - by rewrite app_nil_r.
  - rewrite IH. by rewrite <-app_assoc.
Qed.

(** X1.  A stream without chunks is returned as it is, and nothing is
    captured. *)
Theorem whole_payloads_pass_through (ds : list json) :
  merge_snapshot_chunks json_loads team session_id (Whole <$> ds) = ([], Ok ds).
Proof.
  rewrite merge_deliver. unfold verdicts. rewrite first_seen_wholes.
  replace (omap (verdict_of json_loads (Whole <$> ds)) (IsSnapshot <$> ds))
    with (Emitted <$> ds).
  - apply deliver_emitted.
  - generalize (Whole <$> ds). intros l0.
    induction ds as [|d ds IH]; csimpl; [done|]. by rewrite IH.
Qed.

Lemma wholes_sublist l0 seen l :
  wholes l `sublist_of`
    omap emitted (omap (verdict_of json_loads l0) (first_seen seen l)).
Proof.
  induction l as [|x l IH] in seen |- *; simpl; [constructor|].
  destruct x as [s j n d|w]; simpl.
  - destruct (decide (s ∈ seen)); [apply IH|]. simpl.
    destruct (declared_count s l0) as [m|]; simpl; [|apply IH].
    destruct (group_verdict json_loads m (received s l0)); simpl;
      [apply sublist_cons|..]; apply IH.
  - apply sublist_skip, IH.
Qed.

(** X2.  When the call returns, the whole payloads of the stream are all
    in the list returned, in their order of arrival. *)
Theorem whole_payloads_survive l out :
  (merge_snapshot_chunks json_loads team session_id l).2 = Ok out →
  wholes l `sublist_of` out.
Proof.
  rewrite merge_deliver. intros ->%deliver_returned. simpl. apply wholes_sublist.
Qed.

Lemma deliver_accounting vs (snapshots out : list json) captured :
  (deliver team session_id vs snapshots captured).2 = Ok out →
  (length out + length (deliver team session_id vs snapshots captured).1
   = length snapshots + length captured + length vs)%nat.
Proof.
  induction vs as [|[v| |e] vs IH] in snapshots, captured |- *; simpl.
  - intros [= <-]. lia.
  - intros H%IH. rewrite H, length_app. simpl. lia.
  - intros H%IH. rewrite H, length_app. simpl. lia.
  - done.
Qed.

Lemma verdicts_length l :
  length (verdicts json_loads l) = length (first_seen ∅ l).
Proof.
  unfold verdicts.
  assert (∀ s, s ∈ first_seen ∅ l → is_Some (verdict_of json_loads l s)) as Hall.
  { intros [g|w] Hin; simpl; [|by eexists].
    apply (first_seen_elem json_loads) in Hin as [_ [x Hx]].
    unfold declared_count. rewrite Hx.
    apply first_fragment_of_group in Hx. destruct x; [by eexists|done]. }
  induction (first_seen ∅ l) as [|s k IH]; [done|]. simpl.
  destruct (Hall s) as [v ->]; [by left|]. simpl. f_equal.
  apply IH. intros s' Hs'. apply Hall. by right.
Qed.

Lemma first_seen_length seen l :
  length (first_seen seen l) = (length (wholes l) + size (groups l ∖ seen))%nat.
Proof.
  induction l as [|x l IH] in seen |- *.
  - unfold groups. simpl. replace (∅ ∖ seen) with (∅ : gset string) by set_solver.
    by rewrite size_empty.
  - rewrite groups_cons. destruct x as [s j n d|w]; simpl.
    + destruct (decide (s ∈ seen)).
      * rewrite IH. do 2 f_equal. set_solver.
      * simpl. rewrite IH.
        replace (({[s]} ∪ groups l) ∖ seen)
          with ({[s]} ∪ groups l ∖ ({[s]} ∪ seen)).
        -- pose proof (size_union (C := gset string) {[s]}
                         (groups l ∖ ({[s]} ∪ seen))) as Hsize.
           rewrite Hsize, size_singleton by set_solver. lia.
        -- apply set_eq. intros a. destruct (decide (a = s)); set_solver.
    + by rewrite IH.
Qed.

(** X3.  When the call returns, every whole payload and every group of
    the stream has produced exactly one thing, a payload in the list
    returned or a captured message; and whatever the outcome, the captured
    messages are all the same text. *)
Theorem one_payload_or_message_per_unit l :
  (∃ k, (merge_snapshot_chunks json_loads team session_id l).1 = replicate k message')
  ∧ ∀ out, (merge_snapshot_chunks json_loads team session_id l).2 = Ok out →
      (length out + length (merge_snapshot_chunks json_loads team session_id l).1
       = length (wholes l) + size (groups l))%nat.
Proof.
  rewrite merge_deliver. split.
  - eexists. by rewrite deliver_captured.
  - intros out H%deliver_accounting. rewrite H, verdicts_length, first_seen_length.
    simpl. do 2 f_equal. set_solver.
Qed.

(** X4.  A fragment whose index is outside the declared range of its
    group, arriving after the group's first fragment, is ignored. *)
Theorem out_of_range_fragment_ignored l1 l2 g i n n' d :
  declared_count g l1 = Some n →
  ¬ (0 ≤ i < n) →
  merge_snapshot_chunks json_loads team session_id (l1 ++ Chunk g i n' d :: l2)
  = merge_snapshot_chunks json_loads team session_id (l1 ++ l2).
Proof.
  intros Hn Hi. assert (late l1 (Chunk g i n' d : item')) as Hlate.
  { simpl. apply groups_first_fragment. unfold declared_count in Hn.
    by destruct (first_fragment g l1). }
  apply merge_ext.
  - by apply late_first_seen.
  - intros g'. by apply late_declared_count.
  - intros g' m j Hm Hj. rewrite !received_lookup, !sent_app. simpl.
    destruct (decide (g = g' ∧ i = j)) as [[-> ->]|]; [|done].
    unfold declared_count in Hm, Hn. rewrite first_fragment_app in Hm.
    destruct (first_fragment g' l1) as [[]|]; simplify_eq. lia.
Qed.

(** X5.  Two adjacent fragments of groups that are already open, which do
    not write the same index of the same group, can arrive in either
    order. *)
Theorem late_fragments_commute l1 l2 x y :
  late l1 x → late l1 y → ¬ same_place x y →
  merge_snapshot_chunks json_loads team session_id (l1 ++ x :: y :: l2)
  = merge_snapshot_chunks json_loads team session_id (l1 ++ y :: x :: l2).
Proof.
  intros Hx Hy Hxy. apply merge_ext.
  - transitivity (first_seen ∅ (l1 ++ l2)).
    + rewrite (late_first_seen l1 x (y :: l2)) by done. by apply late_first_seen.
    + symmetry. rewrite (late_first_seen l1 y (x :: l2)) by done.
      by apply late_first_seen.
  - intros g. transitivity (declared_count g (l1 ++ l2)).
    + rewrite (late_declared_count l1 x (y :: l2)) by done.
      by apply late_declared_count.
    + symmetry. rewrite (late_declared_count l1 y (x :: l2)) by done.
      by apply late_declared_count.
  - intros g n i _ _. rewrite !received_lookup, !sent_app. do 2 f_equal.
    destruct x as [s j m d|w], y as [s' j' m' d'|w']; simpl in *; try done.
    destruct (decide (s' = g ∧ j' = i)) as [[-> ->]|];
      destruct (decide (s = g ∧ j = i)) as [[-> ->]|]; try done.
    by destruct Hxy.
Qed.

(** X6.  Of two fragments that write the same index of the same group the
    later one decides: the earlier one, if it is not the group's first
    fragment, can be left out. *)
Theorem last_write_wins l1 l2 l3 x y :
  late l1 x → same_place x y →
  merge_snapshot_chunks json_loads team session_id (l1 ++ x :: l2 ++ y :: l3)
  = merge_snapshot_chunks json_loads team session_id (l1 ++ l2 ++ y :: l3).
Proof.
  intros Hx Hxy. apply merge_ext.
  - by apply late_first_seen.
  - intros g. by apply late_declared_count.
  - intros g n i _ _. rewrite !received_lookup.
    destruct x as [s j m d|w], y as [s' j' m' d'|w']; simpl in *; try done.
    destruct Hxy as [<- <-].
    rewrite (sent_app g i l1), (sent_app g i l1). simpl.
    destruct (decide (s = g ∧ j = i)) as [[-> ->]|]; [|done].
    rewrite !sent_app. simpl. rewrite decide_True by done.
    rewrite app_comm_cons, !app_assoc. by rewrite !last_app_cons.
Qed.

Lemma first_seen_le seen l : (length (first_seen seen l) ≤ length l)%nat.
Proof.
  induction l as [|x l IH] in seen |- *; simpl; [done|].
  destruct x as [s j n d|w]; simpl.
  - destruct (decide (s ∈ seen)); simpl.
    + specialize (IH seen). lia.
    + specialize (IH ({[s]} ∪ seen)). lia.
  - specialize (IH seen). lia.
Qed.

Lemma merge_length l out :
  (merge_snapshot_chunks json_loads team session_id l).2 = Ok out →
  (length out ≤ length l)%nat.
Proof.
  rewrite merge_deliver. intros H%deliver_accounting. simpl in H.
  rewrite verdicts_length in H. pose proof (first_seen_le ∅ l). lia.
Qed.

End Streams.

(** *** Groups that do not resolve, and the declared count *)

Section Incomplete.

Context {json : Type}.
Variable json_loads : string → result json.
Variable team : Team.
Variable session_id : string.

Abbreviation stream := (list (@item json)).
Abbreviation collectors_of l := (snapshot_collectors (foldl collect start l)).
Abbreviation notice := (missing_chunks_message team session_id).

Implicit Types (l : stream) (g : string).

Lemma deliver_decodable (vs : list (@verdict json)) (snapshots : list json) captured :
  Forall (λ v, malformed v = false) vs →
  deliver team session_id vs snapshots captured
  = (captured ++ replicate (reports vs) notice, Ok (snapshots ++ omap emitted vs)).
Proof.
  induction vs as [|[v| |e] vs IH] in snapshots, captured |- *; simpl; intros H.
  - by rewrite !app_nil_r.
  - apply Forall_cons in H as [_ H]. rewrite IH by done. by rewrite <-app_assoc.
  - apply Forall_cons in H as [_ H]. rewrite IH by done. by rewrite <-app_assoc.
  - by apply Forall_cons in H as [H _].
Qed.

Lemma reports_skip (vs1 vs2 : list (@verdict json)) :
  Forall (λ v, malformed v = false) vs1 →
  reports (vs1 ++ Incomplete :: vs2) = S (reports (vs1 ++ vs2)).
Proof.
  induction vs1 as [|[v| |e] vs1 IH]; simpl; intros H.
  - done.
  - apply Forall_cons in H as [_ H]. by apply IH.
  - apply Forall_cons in H as [_ H]. f_equal. by apply IH.
  - by apply Forall_cons in H as [H _].
Qed.

Lemma first_seen_member g l :
  is_Some (first_fragment g l) → IsCollector g ∈ first_seen ∅ l.
Proof.
  intros H. destruct (first_seen_drop json_loads session_id g ∅ l) as (s1 & s2 & E & _);
    [set_solver|done|].
  rewrite E. apply elem_of_app. right. by left.
Qed.

Lemma gather_None_inv (chunks : gmap Z string) indices data :
  gather chunks indices data = None →
  ∃ i, i ∈ indices ∧ (chunks !! i = None ∨ chunks !! i = Some "").
Proof.
  induction indices as [|j indices IH] in data |- *; simpl; [done|].
  destruct (chunks !! j) as [d|] eqn:E.
  - destruct (decide (d = "")) as [->|].
    + intros _. exists j. split; [by left|by right].
    + intros (i & Hi & H)%IH. exists i. split; [by right|done].
  - intros _. exists j. split; [by left|by left].
Qed.

(** The second loop at the collector of a group: the completeness test
    runs over the count declared by the group's first fragment. *)
Lemma collector_step g l n rest (snapshots : list json) captured :
  declared_count g l = Some n →
  emit json_loads team session_id (collectors_of l) (IsCollector g :: rest)
       snapshots captured
  = match group_verdict json_loads n (received g l) with
    | Emitted v =>
        emit json_loads team session_id (collectors_of l) rest (snapshots ++ [v]) captured
    | Incomplete =>
        emit json_loads team session_id (collectors_of l) rest snapshots
             (captured ++ [notice])
    | Malformed e => (captured, Raise e)
    end.
Proof.
  intros Hn. simpl. rewrite (collected_lookup l g). unfold collector_of.
  unfold declared_count in Hn.
  destruct (first_fragment g l) as [[s i m d|w]|]; simplify_eq. simpl.
  unfold group_verdict. destruct (gather (received g l) (range n) ""); [|done].
  by destruct (json_loads _).
Qed.

Lemma deliver_prefix (vs1 vs2 : list (@verdict json)) (snapshots : list json) captured :
  Forall (λ v, malformed v = false) vs1 →
  deliver team session_id (vs1 ++ vs2) snapshots captured
  = deliver team session_id vs2 (snapshots ++ omap emitted vs1)
      (captured ++ replicate (reports vs1) notice).
Proof.
  induction vs1 as [|[v| |e] vs1 IH] in snapshots, captured |- *; simpl; intros H.
  - by rewrite !app_nil_r.
  - apply Forall_cons in H as [_ H]. rewrite IH by done. by rewrite <-app_assoc.
  - apply Forall_cons in H as [_ H]. rewrite IH by done. by rewrite <-app_assoc.
  - by apply Forall_cons in H as [H _].
Qed.

(** A group whose completeness test fails contributes nothing to a list
    that is returned. *)
Lemma incomplete_dropped g l n out :
  declared_count g l = Some n →
  group_verdict json_loads n (received g l) = Incomplete →
  (merge_snapshot_chunks json_loads team session_id l).2 = Ok out →
  out = omap emitted (verdicts json_loads (drop_group g l)).
Proof.
  intros Hn Hv.
  destruct (verdicts_drop json_loads session_id g l)
    as (vs1 & vs2 & v & E1 & Ev & E2); [by eexists|].
  simpl in Ev. rewrite Hn in Ev. simpl in Ev. rewrite Hv in Ev. simplify_eq.
  rewrite (merge_deliver json_loads team session_id l).
  intros ->%deliver_returned. simpl. by rewrite E1, E2, !omap_app.
Qed.

(** It is reported when the groups first seen before it decode. *)
Lemma incomplete_reported g l n :
  declared_count g l = Some n →
  group_verdict json_loads n (received g l) = Incomplete →
  decodable_before json_loads g l →
  notice ∈ (merge_snapshot_chunks json_loads team session_id l).1.
Proof.
  intros Hn Hv (s1 & s2 & E & Hdec).
  rewrite (merge_deliver json_loads team session_id l). unfold verdicts.
  rewrite E, omap_app. simpl. rewrite Hn. simpl. rewrite Hv.
  rewrite deliver_prefix by done. simpl. rewrite deliver_captured.
  apply elem_of_app. left. apply elem_of_app. right. by left.
Qed.

(** A group whose completeness test fails, in a stream whose complete
    groups all decode. *)
Lemma incomplete_outcome g l n :
  declared_count g l = Some n →
  group_verdict json_loads n (received g l) = Incomplete →
  decodable json_loads l →
  reported_and_dropped json_loads team session_id g l.
Proof.
  intros Hn Hv Hdec.
  destruct (verdicts_drop json_loads session_id g l)
    as (vs1 & vs2 & v & E1 & Ev & E2); [by eexists|].
  simpl in Ev. rewrite Hn in Ev. simpl in Ev. rewrite Hv in Ev. simplify_eq.
  unfold decodable in Hdec. rewrite E1 in Hdec.
  apply Forall_app in Hdec as [Hd1 Hd2]. apply Forall_cons in Hd2 as [_ Hd2].
  assert (omap emitted (verdicts json_loads l)
          = omap emitted (verdicts json_loads (drop_group g l))) as Hout.
  { by rewrite E1, E2, !omap_app. }
  exists (omap emitted (verdicts json_loads (drop_group g l))). split; [|split; [done|split]].
  - rewrite (merge_deliver json_loads team session_id l), E1.
    rewrite deliver_decodable by (apply Forall_app; split; [done|by apply Forall_cons]).
    simpl. rewrite reports_skip by done. by rewrite <-E1, Hout, <-E2.
  - rewrite <-Hout. apply (wholes_sublist json_loads l ∅ l).
  - intros g' n' v Hne Hn' Hv'. rewrite <-Hout.
    apply list_elem_of_omap. exists (Emitted v). split; [|done].
    apply list_elem_of_omap. exists (IsCollector g'). split.
    + apply first_seen_member. unfold declared_count in Hn'.
      by destruct (first_fragment g' l).
    + simpl. rewrite Hn'. simpl. by rewrite Hv'.
Qed.

(** C10.  The total used by the completeness test of a group is the
    [chunk_count] of its first-seen fragment, [n]: the first loop leaves
    for the group a collector whose [count] is [n] and whose chunks are
    the data received for the group; the second loop meets that
    collector and resolves it by testing the indices below [n], the group
    being incomplete exactly when one of them is missing or empty and
    otherwise decoded from the data at [0 .. n-1] in this order; and a
    stream that differs only in the [chunk_count] of later fragments gives
    the same captures and the same outcome. *)
Theorem declared_count_first_fragment l g n :
  declared_count g l = Some n →
  (∃ c, collectors_of l !! g = Some c ∧ count c = n ∧ chunks c = received g l)
  ∧ IsCollector g ∈ snapshots_and_collectors (foldl collect start l)
  ∧ (∀ rest snapshots captured,
       emit json_loads team session_id (collectors_of l) (IsCollector g :: rest)
            snapshots captured
       = match group_verdict json_loads n (received g l) with
         | Emitted v =>
             emit json_loads team session_id (collectors_of l) rest
                  (snapshots ++ [v]) captured
         | Incomplete =>
             emit json_loads team session_id (collectors_of l) rest snapshots
                  (captured ++ [notice])
         | Malformed e => (captured, Raise e)
         end)
  ∧ (group_verdict json_loads n (received g l) = Incomplete
     ↔ ∃ i, 0 ≤ i < n ∧ (received g l !! i = None ∨ received g l !! i = Some ""))
  ∧ (∀ d : Z → string,
       (∀ i, 0 ≤ i < n → received g l !! i = Some (d i) ∧ d i ≠ "") →
       group_verdict json_loads n (received g l)
       = match json_loads (index_ordered n d) with
         | Ok v => Emitted v
         | Raise e => Malformed e
         end)
  ∧ ∀ l', Forall2 same_but_count l l' →
          (∀ g', declared_count g' l' = declared_count g' l) →
          merge_snapshot_chunks json_loads team session_id l'
          = merge_snapshot_chunks json_loads team session_id l.
Proof.
  intros Hn. split_and!.
  - rewrite (collected_lookup l g). unfold collector_of.
    unfold declared_count in Hn.
    destruct (first_fragment g l) as [[s i m d|w]|]; simplify_eq. by eexists.
  - rewrite (collected_slots json_loads). apply first_seen_member.
    unfold declared_count in Hn. by destruct (first_fragment g l).
  - intros rest snapshots captured. by apply collector_step.
  - unfold group_verdict. split.
    + destruct (gather (received g l) (range n) "") as [data|] eqn:E.
      * by destruct (json_loads data).
      * intros _. apply gather_None_inv in E as (i & Hi%elem_of_seqZ & H).
        exists i. split; [lia|done].
    + intros (i & Hi & H). rewrite (gather_None _ _ _ i); [done| |done].
      apply elem_of_seqZ. lia.
  - intros d Hd. unfold group_verdict. rewrite (gather_all _ d).
    + change ("" +:+ ?a) with a. by fold (index_ordered n d).
    + intros i Hi%elem_of_seqZ. apply Hd. lia.
  - intros l' Hsame Hcount.
    rewrite !(merge_deliver json_loads team session_id). f_equal. unfold verdicts.
    rewrite (same_but_count_first_seen _ _ _ Hsame).
    apply list_omap_ext, Forall_Forall2_diag, Forall_forall.
    intros [g'|w] _; simpl; [|done].
    by rewrite Hcount, (same_but_count_received _ _ _ Hsame).
Qed.

(** C6, amended.  A group that is still short of its declared count when
    the stream ends (an index below the count never arrived).  Where the
    second loop meets its collector nothing is appended, the message is
    captured and the loop goes on; a list that is returned holds no
    payload for the group; the message has been captured when
    [json.loads] accepts the data of every complete group first seen
    before it; and when [json.loads] accepts the data of every complete
    group, the call returns, with a message captured for the group, and
    the list returned holds every whole payload and the decoded data of
    every other complete group. *)
Theorem short_group_reported_and_dropped l g n i :
  declared_count g l = Some n →
  0 ≤ i < n →
  received g l !! i = None →
  (∀ rest snapshots captured,
     emit json_loads team session_id (collectors_of l) (IsCollector g :: rest)
          snapshots captured
     = emit json_loads team session_id (collectors_of l) rest snapshots
            (captured ++ [notice]))
  ∧ (∀ out, (merge_snapshot_chunks json_loads team session_id l).2 = Ok out →
            out = omap emitted (verdicts json_loads (drop_group g l)))
  ∧ (decodable_before json_loads g l →
     notice ∈ (merge_snapshot_chunks json_loads team session_id l).1)
  ∧ (decodable json_loads l → reported_and_dropped json_loads team session_id g l).
Proof.
  intros Hn Hi Hmiss.
  assert (group_verdict json_loads n (received g l) = Incomplete) as Hv.
  { unfold group_verdict. rewrite (gather_None _ _ _ i); [done| |by left].
    apply elem_of_seqZ. lia. }
  split_and!.
  - intros rest snapshots captured. by rewrite (collector_step g l n), Hv.
  - intros out. by apply (incomplete_dropped g l n).
  - by apply (incomplete_reported g l n).
  - by apply (incomplete_outcome g l n).
Qed.

(** C9, amended.  A group in which an index below the declared count holds
    the empty string is treated like a group with a missing index, whether
    or not every index was recorded.  Where the second loop meets its
    collector nothing is appended, the message is captured and the loop
    goes on; a list that is returned holds no payload for the group; and
    the message has been captured when [json.loads] accepts the data of
    every complete group first seen before it. *)
Theorem empty_chunk_reported_and_dropped l g n i :
  declared_count g l = Some n →
  0 ≤ i < n →
  received g l !! i = Some "" →
  (∀ rest snapshots captured,
     emit json_loads team session_id (collectors_of l) (IsCollector g :: rest)
          snapshots captured
     = emit json_loads team session_id (collectors_of l) rest snapshots
            (captured ++ [notice]))
  ∧ (decodable_before json_loads g l →
     treated_as_incomplete json_loads team session_id g l).
Proof.
  intros Hn Hi Hempty.
  assert (group_verdict json_loads n (received g l) = Incomplete) as Hv.
  { unfold group_verdict. rewrite (gather_None _ _ _ i); [done| |by right].
    apply elem_of_seqZ. lia. }
  split.
  - intros rest snapshots captured. by rewrite (collector_step g l n), Hv.
  - intros Hdec. split.
    + by apply (incomplete_reported g l n).
    + intros out. by apply (incomplete_dropped g l n).
Qed.

End Incomplete.

(** Witness of C10: the second fragment of A declares 1, the first 2. *)
Lemma declared_count_first_fragment_witness :
  let l : list (@item string) := [Chunk "A" 0 2 "{a"; Chunk "A" 1 1 "a}"] in
  (∃ c, snapshot_collectors (foldl collect start l) !! "A" = Some c
        ∧ count c = 2 ∧ chunks c = received "A" l)
  ∧ IsCollector "A" ∈ snapshots_and_collectors (foldl collect start l)
  ∧ group_verdict loads_braced 2 (received "A" l) = Emitted "{aa}"
  ∧ merge_snapshot_chunks loads_braced team7 "s1" l = ([], Ok ["{aa}"]).
Proof.
  intros l.
  destruct (declared_count_first_fragment loads_braced team7 "s1" l "A" 2 eq_refl)
    as (Hc & Hslot & _ & _ & _ & _).
  split; [exact Hc|]. split; [exact Hslot|]. split; reflexivity.
Defined.

(** Witness of C6 amended: group A declares three chunks and index 2 never
    arrives; the whole payload and group B are returned. *)
Lemma short_group_reported_and_dropped_witness :
  let l : list (@item string) :=
    [Chunk "A" 0 3 "{a"; Whole "w"; Chunk "B" 0 1 "{b}"; Chunk "A" 1 3 "a}"] in
  reported_and_dropped loads_braced team7 "s1" "A" l
  ∧ merge_snapshot_chunks loads_braced team7 "s1" l
    = (["Did not find all session recording chunks! Team: 7, Session: s1"],
       Ok ["w"; "{b}"]).
Proof.
  intros l.
  destruct (short_group_reported_and_dropped loads_braced team7 "s1" l "A" 3 2
              eq_refl ltac:(lia) eq_refl) as (_ & _ & _ & H).
  split; [|reflexivity]. apply H. unfold decodable.
  assert (verdicts loads_braced l = [Incomplete; Emitted "w"; Emitted "{b}"]) as ->
    by reflexivity.
  repeat constructor.
Defined.

(** Counterexample to C6 as stated: group B is complete and does not
    decode.  The message for A has been captured, but the call raises and
    the whole payload is not returned. *)
Lemma short_group_lost_to_malformed_group :
  merge_snapshot_chunks loads_braced team7 "s1"
    [Whole "w"; Chunk "A" 0 2 "{a"; Chunk "B" 0 1 "not json"]
  = (["Did not find all session recording chunks! Team: 7, Session: s1"],
     Raise (JSONDecodeError "not json"))
  ∧ ¬ short_group_as_stated loads_braced.
Proof.
  split; [reflexivity|]. intros H.
  destruct (H team7 "s1" [Whole "w"; Chunk "A" 0 2 "{a"; Chunk "B" 0 1 "not json"]
              "A" 2 1 eq_refl ltac:(lia) eq_refl) as (out & Hm & _).
  apply (f_equal snd) in Hm. vm_compute in Hm. discriminate Hm.
Qed.

(** Witness of C9 amended: both indices of group A were recorded, index 1
    empty; group B, first seen before A, decodes, and group C, first seen
    after it, does not.  The message for A has been captured when the call
    raises at C. *)
Lemma empty_chunk_reported_and_dropped_witness :
  let l : list (@item string) :=
    [Whole "w"; Chunk "B" 0 1 "{b}"; Chunk "A" 0 2 "{a}"; Chunk "A" 1 2 "";
     Chunk "C" 0 1 "not json"] in
  treated_as_incomplete loads_braced team7 "s1" "A" l
  ∧ merge_snapshot_chunks loads_braced team7 "s1" l
    = (["Did not find all session recording chunks! Team: 7, Session: s1"],
       Raise (JSONDecodeError "not json")).
Proof.
  intros l.
  destruct (empty_chunk_reported_and_dropped loads_braced team7 "s1" l "A" 2 1
              eq_refl ltac:(lia) eq_refl) as [_ H].
  split; [|reflexivity]. apply H.
  exists [IsSnapshot "w"; IsCollector "B"], [IsCollector "C"].
  split; [reflexivity|].
  assert (omap (verdict_of loads_braced l) [IsSnapshot "w"; IsCollector "B"]
          = [Emitted "w"; Emitted "{b}"]) as -> by reflexivity.
  repeat constructor.
Defined.

(** Counterexample to C9 as stated: group B, first seen before A, is
    complete and does not decode.  The call raises at B, and no message is
    ever captured for A. *)
Lemma empty_chunk_unreported_after_malformed_group :
  merge_snapshot_chunks loads_braced team7 "s1"
    [Chunk "B" 0 1 "not json"; Chunk "A" 0 2 "{a}"; Chunk "A" 1 2 ""]
  = ([], Raise (JSONDecodeError "not json"))
  ∧ ¬ empty_chunk_as_stated loads_braced.
Proof.
  split; [reflexivity|]. intros H.
  destruct (H team7 "s1"
              [Chunk "B" 0 1 "not json"; Chunk "A" 0 2 "{a}"; Chunk "A" 1 2 ""]
              "A" 2 1 eq_refl ltac:(lia) eq_refl) as [Hm _].
  vm_compute in Hm. by apply elem_of_nil in Hm.
Qed.

(** *** [run] *)

Section Run.

Context {json Person : Type}.
Variable json_loads : string → result json.
Variable recording_events : Team → string → list (@SessionRecordingEvent json).
Variable person_data : Team → string → result Person.

(** X7.  A recording without events plays back as no snapshots, no person
    and no start time; nothing is captured and no person is looked up,
    whatever the lookup would do. *)
Theorem run_without_events team session_recording_id :
  recording_events team session_recording_id = [] →
  run json_loads recording_events person_data team session_recording_id
  = ([], Ok {| snapshots := []; person := None; start_time := None |}).
Proof. intros H. unfold run, query_recording_snapshots. by rewrite H. Qed.

(** X8.  When [run] returns, the start time is the timestamp of the first
    event, there are at most as many snapshots as events, and they include
    the payloads of all events that are not chunks, in the order of the
    events. *)
Theorem run_snapshots_of_events team session_recording_id captured result :
  run json_loads recording_events person_data team session_recording_id
  = (captured, Ok result) →
  start_time result = timestamp <$> head (recording_events team session_recording_id)
  ∧ (length (snapshots result)
     ≤ length (recording_events team session_recording_id))%nat
  ∧ wholes (snapshot_data <$> recording_events team session_recording_id)
    `sublist_of` snapshots result.
Proof.
  unfold run, query_recording_snapshots.
  destruct (recording_events team session_recording_id) as [|first rest] eqn:E.
  - simpl. intros [= <- <-]. simpl. split; [done|]. split; [done|]. constructor.
  - destruct (merge_snapshot_chunks json_loads team session_recording_id
                (snapshot_data <$> first :: rest)) as [c [out|e]] eqn:Em; [|done].
    assert ((merge_snapshot_chunks json_loads team session_recording_id
               (snapshot_data <$> first :: rest)).2 = Ok out) as Hout
      by (by rewrite Em).
    pose proof (merge_length json_loads team session_recording_id _ _ Hout) as Hlen.
    assert (wholes (snapshot_data <$> first :: rest) `sublist_of` out) as Hsub.
    { rewrite merge_deliver in Hout. apply deliver_returned in Hout as ->.
      apply wholes_sublist. }
    rewrite length_fmap in Hlen.
    destruct (decide (distinct_id first = "")).
    + by intros [= <- <-].
    + destruct (person_data team (distinct_id first)); [|done]. by intros [= <- <-].
Qed.

End Run.

(** *** [filter_sessions_by_recordings] *)

Section Correlate.

Variable limit_by_recordings : SessionsFilter → bool.
Variable viewed_session_recordings : Team → SessionsFilter → gset string.

Implicit Types (session : Session.t) (r : Recording.t) (m : matched).



Lemma collect_elem session rs filter viewed m :
  m ∈ collect_matching_recordings session rs filter viewed ↔
  ∃ r, r ∈ rs ∧ matches session r filter viewed = true
       ∧ m = {| id := Recording.session_id r;
                SessionRecording.viewed :=
                  bool_decide (Recording.session_id r ∈ viewed) |}.
Proof.
  induction rs as [|r rs IH]; simpl.
  - split; [by intros ?%elem_of_nil|]. by intros (? & ?%elem_of_nil & _).
  - destruct (matches session r filter viewed) eqn:E.
    + rewrite elem_of_cons, IH. split.
      * intros [->|(r' & ? & ? & ?)]; [exists r|exists r']; split_and!; try done;
          [by left|by right].
      * intros (r' & [->|?]%elem_of_cons & ? & ?); [by left|right; by exists r'].
    + rewrite IH. split.
      * intros (r' & ? & ? & ?). exists r'. split_and!; [by right|done..].
      * intros (r' & [->|?]%elem_of_cons & ? & ?); [congruence|by exists r'].
Qed.

(** X10.  With the unseen-only filter on, every entry that
    [collect_matching_recordings] yields has [viewed] false. *)
Theorem unseen_entries_not_viewed session rs filter viewed m :
  recording_unseen_filter filter = true →
  m ∈ collect_matching_recordings session rs filter viewed →
  SessionRecording.viewed m = false.
Proof.
  intros Hu (r & _ & Hm & ->)%collect_elem. simpl. unfold matches in Hm.
  rewrite Hu in Hm. apply andb_true_iff in Hm as [_ Hm]. simpl in Hm.
  by apply negb_true_iff in Hm.
Qed.

(** X11.  The unseen-only filter selects from what is yielded without it
    the entries that have not been viewed, and changes nothing else. *)
Theorem unseen_filters_unfiltered session rs viewed :
  collect_matching_recordings session rs {| recording_unseen_filter := true |} viewed
  = base.filter (λ m, SessionRecording.viewed m = false)
      (collect_matching_recordings session rs
         {| recording_unseen_filter := false |} viewed).
Proof.
  induction rs as [|r rs IH]; [done|]. simpl. unfold matches. simpl.
  destruct (bool_decide (Session.distinct_id session = Recording.distinct_id r)
            && bool_decide (Session.start_time session ≤ Recording.end_time r)
            && bool_decide (Session.end_time session >= Recording.start_time r));
    simpl; [|done].
  rewrite filter_cons. simpl.
  destruct (bool_decide (Recording.session_id r ∈ viewed)); simpl.
  - done.
  - by rewrite IH.
Qed.

(** X12.  Candidates are taken one by one: the entries for a concatenation
    of candidate lists are the entries for the parts, concatenated, so a
    candidate that is listed twice is yielded twice. *)
Theorem collect_app session rs1 rs2 filter viewed :
  collect_matching_recordings session (rs1 ++ rs2) filter viewed
  = collect_matching_recordings session rs1 filter viewed
    ++ collect_matching_recordings session rs2 filter viewed.
Proof.
  induction rs1 as [|r rs1 IH]; [done|]. simpl.
  destruct (matches session r filter viewed); [|done]. simpl. by rewrite IH.
Qed.

(** X13.  What [filter_sessions_by_recordings] leaves and returns.  Every
    session of the batch, in order, has been assigned the entries of the
    recordings that the one query returned and that match it.  Without
    [limit_by_recordings] that list is returned; with it, the sessions
    with at least one entry are returned, in order. *)
Theorem sessions_annotated team session rest filter query rows assigned returned :
  query team (min_ts session rest) (max_ts session rest) filter = Ok rows →
  filter_sessions_by_recordings limit_by_recordings viewed_session_recordings
    team (session :: rest) filter query = Ok (assigned, returned) →
  assigned
  = (λ s, (s, collect_matching_recordings s rows filter
               (viewed_session_recordings team filter))) <$> (session :: rest)
  ∧ (limit_by_recordings filter = false → returned = assigned)
  ∧ (limit_by_recordings filter = true →
     returned `sublist_of` assigned
     ∧ ∀ a, a ∈ returned ↔ a ∈ assigned ∧ a.2 ≠ []).
Proof.
  intros Hq. unfold filter_sessions_by_recordings. rewrite Hq. simpl.
  destruct (limit_by_recordings filter); intros [= <- <-].
  - split; [done|]. split; [done|]. intros _. split; [apply sublist_filter|].
    intros a. rewrite list_elem_of_filter. split.
    + intros [Hlen ?]. split; [done|]. intros Ha. rewrite Ha in Hlen. simpl in Hlen. lia.
    + intros [? Hne]. split; [|done]. destruct (a.2); [done|simpl; lia].
  - split; [done|]. split; [done|]. done.
Qed.

End Correlate.

(** Witness of X2. *)
Lemma whole_payloads_survive_witness :
  wholes [Chunk "A" 0 1 "{a}"; Whole "w"; Whole "v"] `sublist_of` ["{a}"; "w"; "v"].
Proof.
  apply (whole_payloads_survive loads_braced team7 "s1"
           [Chunk "A" 0 1 "{a}"; Whole "w"; Whole "v"]).
  reflexivity.
Defined.

(** Witness of X4: index 5 arrives for a group that declared two chunks. *)
Lemma out_of_range_fragment_ignored_witness :
  merge_snapshot_chunks loads_braced team7 "s1"
    ([Chunk "A" 0 2 "{a"] ++ Chunk "A" 5 9 "zz" :: [Chunk "A" 1 2 "a}"])
  = merge_snapshot_chunks loads_braced team7 "s1"
      ([Chunk "A" 0 2 "{a"] ++ [Chunk "A" 1 2 "a}"]).
Proof.
  apply (out_of_range_fragment_ignored loads_braced team7 "s1"
           [Chunk "A" 0 2 "{a"] [Chunk "A" 1 2 "a}"] "A" 5 2 9 "zz").
  - reflexivity.
  - lia.
Defined.

(** Witness of X5: indices 2 and 1 of group A arrive in either order. *)
Lemma late_fragments_commute_witness :
  merge_snapshot_chunks loads_braced team7 "s1"
    ([Chunk "A" 0 3 "{a"] ++ Chunk "A" 2 3 "c}" :: Chunk "A" 1 3 "b" :: [])
  = merge_snapshot_chunks loads_braced team7 "s1"
      ([Chunk "A" 0 3 "{a"] ++ Chunk "A" 1 3 "b" :: Chunk "A" 2 3 "c}" :: []).
Proof.
  apply (late_fragments_commute loads_braced team7 "s1" [Chunk "A" 0 3 "{a"] []
           (Chunk "A" 2 3 "c}") (Chunk "A" 1 3 "b")).
  - simpl. set_solver.
  - simpl. set_solver.
  - simpl. intros [_ ?]. lia.
Defined.

(** Witness of X6: index 1 of group A is sent twice. *)
Lemma last_write_wins_witness :
  merge_snapshot_chunks loads_braced team7 "s1"
    ([Chunk "A" 0 2 "{a"] ++ Chunk "A" 1 2 "x" :: [Whole "w"] ++ Chunk "A" 1 2 "a}" :: [])
  = merge_snapshot_chunks loads_braced team7 "s1"
      ([Chunk "A" 0 2 "{a"] ++ [Whole "w"] ++ Chunk "A" 1 2 "a}" :: []).
Proof.
  apply (last_write_wins loads_braced team7 "s1" [Chunk "A" 0 2 "{a"] [Whole "w"] []
           (Chunk "A" 1 2 "x") (Chunk "A" 1 2 "a}")).
  - simpl. set_solver.
  - done.
Defined.

(** Witness of X7: no events, and a person lookup that would fail. *)
Lemma run_without_events_witness :
  run loads_braced (λ _ _, []) (λ _ _, Raise (LibraryError "DoesNotExist") : result string)
    team7 "s1"
  = ([], Ok {| snapshots := []; person := None; start_time := None |}).
Proof.
  apply (run_without_events loads_braced (λ _ _, [])
           (λ _ _, Raise (LibraryError "DoesNotExist") : result string) team7 "s1").
  reflexivity.
Defined.

(** Witness of X8. *)
Lemma run_snapshots_of_events_witness :
  Some 100 = timestamp <$> head two_events
  ∧ (length ["{a}"; "w"] ≤ length two_events)%nat
  ∧ wholes (snapshot_data <$> two_events) `sublist_of` ["{a}"; "w"].
Proof.
  apply (run_snapshots_of_events loads_braced (λ _ _, two_events) (λ _ d, Ok d)
           team7 "s1" []
           {| snapshots := ["{a}"; "w"]; person := Some "u1"; start_time := Some 100 |}).
  reflexivity.
Defined.

(** Witness of X10: of two matching candidates, r1 has been viewed. *)
Lemma unseen_entries_not_viewed_witness :
  {| id := "r2"; viewed := false |}
  ∈ collect_matching_recordings (session_of "u1" 10 20)
      [candidate "r1" "u1" 15 25; candidate "r2" "u1" 15 25]
      {| recording_unseen_filter := true |} {["r1"]}
  ∧ viewed {| id := "r2"; viewed := false |} = false.
Proof.
  assert ({| id := "r2"; viewed := false |}
          ∈ collect_matching_recordings (session_of "u1" 10 20)
              [candidate "r1" "u1" 15 25; candidate "r2" "u1" 15 25]
              {| recording_unseen_filter := true |} {["r1"]}) as Hin.
  { apply list_elem_of_singleton. reflexivity. }
  split; [exact Hin|].
  exact (unseen_entries_not_viewed (session_of "u1" 10 20)
           [candidate "r1" "u1" 15 25; candidate "r2" "u1" 15 25]
           {| recording_unseen_filter := true |} {["r1"]} _ eq_refl Hin).
Defined.

(** Witness of X13: two sessions, one recording that overlaps the first. *)
Lemma sessions_annotated_witness :
  let viewed_of (_ : Team) (_ : SessionsFilter) : gset string := ∅ in
  let on := {| recording_unseen_filter := false |} in
  let s1 := session_of "u1" 10 20 in
  let s2 := session_of "u2" 30 40 in
  let rows := [candidate "r1" "u1" 15 25] in
  let assigned := [(s1, [{| id := "r1"; viewed := false |}]); (s2, [])] in
  let returned := [(s1, [{| id := "r1"; viewed := false |}])] in
  assigned
  = (λ s, (s, collect_matching_recordings s rows on (viewed_of team7 on))) <$> [s1; s2]
  ∧ ((λ _ : SessionsFilter, true) on = false → returned = assigned)
  ∧ ((λ _ : SessionsFilter, true) on = true →
     returned `sublist_of` assigned
     ∧ ∀ a, a ∈ returned ↔ a ∈ assigned ∧ a.2 ≠ []).
Proof.
  intros viewed_of on s1 s2 rows assigned returned.
  apply (sessions_annotated (λ _, true) viewed_of team7 s1 [s2] on
           (λ _ _ _ _, Ok rows) rows assigned returned).
  - reflexivity.
  - reflexivity.
Defined.

End SessionRecordingFacts.

(** ** Facts about retention *)

Module RetentionFacts.

Import Retention.

Section Retention.

Context {datetime delta property Action : Type}.
Context {C : Collaborators datetime delta property Action}.

Abbreviation Filter := (Filter property).
Abbreviation row := (row datetime).
Abbreviation state := (@state property).
Abbreviation M := (@M property).

Implicit Types (f : Filter) (st : state) (period trunc : string).

(** *** Running the state monad *)

Lemma bind_Ok {A B} (m : M A) (k : A → M B) st st1 a :
  m st = (st1, Ok a) → (m ≫= k) st = k a st1.
Proof. unfold mbind, M_bind. by intros ->. Qed.

Lemma bind_Raise {A B} (m : M A) (k : A → M B) st st1 e :
  m st = (st1, Raise e) → (m ≫= k) st = (st1, Raise e).
Proof. unfold mbind, M_bind. by intros ->. Qed.

Lemma bind_inv {A B} (m : M A) (k : A → M B) st st2 b :
  (m ≫= k) st = (st2, Ok b) →
  ∃ st1 a, m st = (st1, Ok a) ∧ k a st1 = (st2, Ok b).
Proof.
  unfold mbind, M_bind. destruct (m st) as [st1 [a|e]]; [|done]. by exists st1, a.
Qed.

Lemma lift_inv {A} (r : result A) st st1 a :
  lift r st = (st1, Ok a) → st1 = st ∧ r = Ok a.
Proof. unfold lift. by intros [= -> ->]. Qed.

(** *** Comprehensions *)

Lemma comprehension_Ok {A B} (g : A → result B) (l : list A) (ys : list B) :
  comprehension g l = Ok ys →
  length ys = length l
  ∧ ∀ i x, l !! i = Some x → ∃ y, ys !! i = Some y ∧ g x = Ok y.
Proof.
  induction l as [|x l IH] in ys |- *; simpl.
  - intros [= <-]. split; [done|]. intros i x. by rewrite lookup_nil.
  - unfold mbind, result_bind at 1. destruct (g x) as [y|e] eqn:Ey; [|done].
    unfold result_bind at 1. destruct (comprehension g l) as [ys'|e]; [|done].
    intros [= <-]. destruct (IH ys' eq_refl) as [Hlen Hall].
    split; [simpl; by rewrite Hlen|].
    intros [|i] x'; simpl.
    + intros [= <-]. by exists y.
    + apply Hall.
Qed.

(** *** Periods *)

Lemma unsupported_period N period :
  period ≠ "Hour" → period ≠ "Day" → period ≠ "Week" → period ≠ "Month" →
  _determineTimedelta N period
  = Raise (ValueError ("Period " +:+ period +:+ " is unsupported.")).
Proof. intros. unfold _determineTimedelta. by rewrite !decide_False. Qed.

(** C8.  With a period outside Hour, Day, Week and Month the call raises
    the [ValueError] of [_determineTimedelta] and leaves the state as it
    was: no query has been sent, the clock has not been read and the filter
    has not been assigned to. *)
Theorem unsupported_period_rejected team N st :
  let period := period_or_day (filter st) in
  period ≠ "Hour" → period ≠ "Day" → period ≠ "Week" → period ≠ "Month" →
  calculate_retention team N st
  = (st, Raise (ValueError ("Period " +:+ period +:+ " is unsupported."))).
Proof.
  intros period H1 H2 H3 H4. unfold calculate_retention, resolve_dates.
  apply bind_Raise. rewrite (bind_Ok _ _ st st (filter st)) by done.
  apply bind_Raise. unfold lift. fold period. by rewrite unsupported_period.
Qed.

(** C5, amended.  With a period other than Hour and no [date_to] in the
    filter, line 31 first assigns to [filter._date_to] the current time
    plus one period, in ISO format; [filter.date_to], read on line 37,
    then gives that instant, and the anchor [date_to] is that instant, the
    current time plus one period, with hour, minute, second and
    microsecond replaced by zero.  [date_from] is the anchor minus the
    span that [_determineTimedelta] returns for [total_intervals]; both
    are assigned to the filter in ISO format, the clock has been read
    once, and the call goes on to the query with them. *)
Theorem anchor_is_shifted_midnight team N st step trunc t1 shifted date_from :
  let period := period_or_day (filter st) in
  let anchor := dt_replace shifted 0 0 0 0 in
  period ≠ "Hour" →
  _determineTimedelta N period = Ok (step, trunc, t1) →
  date_to (filter st) = None →
  dt_add (now (clock st)) t1 = Ok shifted →
  date_to (with__date_to (isoformat shifted) (filter st)) = Some shifted →
  dt_sub anchor step = Ok date_from →
  ∃ st',
    resolve_dates N st = (st', Ok (period, trunc, date_from, anchor))
    ∧ _date_to (filter st') = Some (isoformat anchor)
    ∧ _date_from (filter st') = Some (isoformat date_from)
    ∧ clock st' = S (clock st)
    ∧ executed st' = executed st
    ∧ calculate_retention team N st
      = (rows ← run_query team period trunc date_from anchor;
         lift (parse_result period date_from N rows)) st'.
Proof.
  intros period anchor Hp Hd H31 Hadd H37 Hsub.
  set (st' := {| filter :=
                   with__date_to (isoformat anchor)
                     (with__date_from (isoformat date_from)
                        (with__date_to (isoformat shifted) (filter st)));
                 clock := S (clock st); executed := executed st |}).
  assert (resolve_dates N st = (st', Ok (period, trunc, date_from, anchor))) as Hr.
  { unfold resolve_dates, date_to_or_now, mbind, M_bind, get_filter, lift,
      read_clock, assign__date_to, assign__date_from, mret, M_ret. simpl.
    fold period. rewrite Hd, H31. simpl. rewrite Hadd. simpl.
    rewrite decide_False by done. cbn [filter]. rewrite H37. simpl.
    fold anchor. rewrite Hsub. reflexivity. }
  exists st'. split; [done|]. do 4 (split; [done|]).
  unfold calculate_retention. by rewrite (bind_Ok _ _ _ _ _ Hr).
Qed.

(** The general form of the anchor for a period other than Hour: whatever
    [filter.date_to] gives when line 37 reads it, after line 31 has assigned
    [filter._date_to], with hour, minute, second and microsecond replaced by
    zero. *)
Lemma anchor_of_date_to N st st1 step trunc t1 d0 shifted d date_from :
  let period := period_or_day (filter st) in
  period ≠ "Hour" →
  _determineTimedelta N period = Ok (step, trunc, t1) →
  date_to_or_now st = (st1, Ok d0) →
  dt_add d0 t1 = Ok shifted →
  date_to (with__date_to (isoformat shifted) (filter st)) = Some d →
  dt_sub (dt_replace d 0 0 0 0) step = Ok date_from →
  ∃ st', resolve_dates N st
         = (st', Ok (period, trunc, date_from, dt_replace d 0 0 0 0)).
Proof.
  intros period Hp Hd H31 Hadd H37 Hsub. eexists.
  unfold resolve_dates. rewrite (bind_Ok _ _ st st (filter st)) by done.
  fold period. rewrite (bind_Ok _ _ st st (step, trunc, t1)) by (unfold lift; by rewrite Hd).
  rewrite (bind_Ok _ _ _ _ _ H31).
  rewrite (bind_Ok _ _ st1 st1 shifted) by (unfold lift; by rewrite Hadd).
  assert (filter st1 = filter st) as Hf.
  { unfold date_to_or_now, mbind, M_bind, get_filter, read_clock, mret, M_ret in H31.
    simpl in H31. destruct (date_to (filter st)); by simplify_eq. }
  unfold date_to_or_now, mbind, M_bind, get_filter, lift, read_clock,
    assign__date_to, assign__date_from, mret, M_ret. simpl.
  rewrite decide_False by done. cbn [filter]. rewrite Hf, H37. simpl.
  rewrite Hsub. reflexivity.
Qed.

(** *** The predicates *)

Lemma render_condition (e : Entity) prepend :
  _get_condition e prepend
  = result_map (λ cp, (render cp.1, cp.2)) (condition_of e prepend).
Proof.
  unfold _get_condition, condition_of. repeat case_decide.
  - destruct (Action_objects_get (id e)) as [a|err]; [|done]. simpl.
    by destruct (format_action_filter a prepend).
  - simpl. by rewrite append_assoc.
  - simpl. by rewrite append_assoc.
Qed.

Lemma render_event_filter f trunc :
  _get_event_filter f trunc
  = result_map (λ x, ("AND " +:+ render x.1.1, "AND " +:+ render x.1.2, x.2))
               (event_conditions f trunc).
Proof.
  unfold _get_event_filter, event_conditions. rewrite !render_condition.
  destruct (condition_of (target_of f) "") as [[target tparams]|err]; [|done].
  simpl. match goal with |- context [condition_of ?e ?p] =>
    destruct (condition_of e p) as [[returning rparams]|err] end; [|done].
  simpl. destruct (bool_decide _); [|done]. simpl.
  do 3 f_equal. by rewrite !append_assoc.
Qed.

(** C1, amended.  In first-time mode the returning predicate is the
    disjunction of the target entity's condition, unrestricted, and of the
    returning entity's condition restricted to the anchor bucket (the
    bucket of the start of the range): an event satisfies it exactly when
    it is the target action, or the returning action in the anchor
    bucket. *)
Theorem first_time_returning_predicate f trunc q rq params :
  retention_type f = Some RETENTION_FIRST_TIME →
  _get_event_filter f trunc = Ok (q, rq, params) →
  ∃ target tparams returning rparams,
    condition_of (target_of f) "" = Ok (target, tparams)
    ∧ condition_of (first_entity f) "returning" = Ok (returning, rparams)
    ∧ event_conditions f trunc
      = Ok (target, Or target (And returning (SameBucket trunc)), params)
    ∧ q = "AND " +:+ render target
    ∧ rq = "AND " +:+ render (Or target (And returning (SameBucket trunc)))
    ∧ ∀ R e,
        holds R params (Or target (And returning (SameBucket trunc))) e
        = holds R params target e
          || (holds R params returning e && in_anchor_bucket R trunc e).
Proof.
  intros Hft. rewrite render_event_filter. unfold event_conditions.
  rewrite bool_decide_eq_true_2 by done.
  destruct (condition_of (target_of f) "") as [[target tparams]|err]; [|done].
  simpl. destruct (condition_of (first_entity f) "returning")
    as [[returning rparams]|err]; [|done].
  simpl. intros [= <- <- <-]. by exists target, tparams, returning, rparams.
Qed.

(** *** The query and the matrix *)

Lemma resolve_dates_executed N st st' (r : result (string * string * datetime * datetime)) :
  resolve_dates N st = (st', r) → executed st' = executed st.
Proof.
  unfold resolve_dates, date_to_or_now, mbind, M_bind, get_filter, lift,
    read_clock, assign__date_to, assign__date_from, mret, M_ret.
  intros H. repeat case_match; simplify_eq/=; done.
Qed.

Lemma run_query_inv team period trunc (date_from date_to : datetime) st st' rows :
  run_query team period trunc date_from date_to st = (st', Ok rows) →
  ∃ sql params,
    executed st' = executed st ++ [(sql, params)] ∧ sync_execute sql params = Ok rows.
Proof.
  unfold run_query, execute, mbind, M_bind, get_filter, lift.
  intros H. repeat case_match; simplify_eq/=; eauto.
Qed.

Lemma fold_rows_snoc rows a b c :
  fold_rows (rows ++ [(a, b, c)])
  = <[(a, b) := {| count := c; people := [] |}]> (fold_rows rows).
Proof. unfold fold_rows. by rewrite foldl_snoc. Qed.

(** A pair that no result row carries is not in [result_dict]. *)
Lemma fold_rows_absent rows i k :
  (∀ n, (i, k, n) ∉ rows) → fold_rows rows !! (i, k) = None.
Proof.
  induction rows as [|[[a b] c] rows IH] using rev_ind; [done|].
  intros Habs. rewrite fold_rows_snoc. rewrite lookup_insert_ne.
  - apply IH. intros n Hn. apply (Habs n), elem_of_app. by left.
  - intros [= -> ->]. apply (Habs c), elem_of_app. right. by left.
Qed.

(** The last result row of a pair decides its count. *)
Lemma fold_rows_last rows rows' i k n :
  (∀ m, (i, k, m) ∉ rows') →
  fold_rows (rows ++ (i, k, n) :: rows') !! (i, k)
  = Some {| count := n; people := [] |}.
Proof.
  induction rows' as [|[[a b] c] rows' IH] using rev_ind; intros Habs.
  - by rewrite fold_rows_snoc, lookup_insert_eq.
  - rewrite app_comm_cons, app_assoc, fold_rows_snoc, lookup_insert_ne.
    + apply IH. intros m Hm. apply (Habs m), elem_of_app. by left.
    + intros [= -> ->]. apply (Habs c), elem_of_app. right. by left.
Qed.

Lemma parse_result_shape period (date_from : datetime) N rows parsed :
  parse_result period date_from N rows = Ok parsed →
  length parsed = Z.to_nat N
  ∧ ∀ i, 0 ≤ i < N →
      ∃ r, parsed !! Z.to_nat i = Some r
           ∧ values r = (λ day, cell_at (fold_rows rows) i day) <$> range (N - i)
           ∧ label r = period +:+ " " +:+ pretty i.
Proof.
  unfold parse_result. unfold mbind at 1, result_bind at 1.
  destruct (if decide (period = "Week") then _ else _) as [date_from'|e]; [|done].
  match goal with |- context [comprehension ?g _] => set (body := g) end.
  intros [Hlen Hall]%comprehension_Ok. unfold range in *.
  rewrite length_seqZ in Hlen. split; [done|].
  intros i Hi. destruct (Hall (Z.to_nat i) i) as (r & Hr & Hbody).
  { rewrite lookup_seqZ_lt by lia. f_equal. lia. }
  exists r. split; [done|]. unfold body in Hbody.
  unfold mbind, result_bind in Hbody.
  destruct (_determineTimedelta i period) as [[[d ?] ?]|?]; [|done].
  destruct (dt_add date_from' d); [|done]. by simplify_eq.
Qed.

(** C2, amended.  The matrix has [N] rows and row [i] has [N - i] cells,
    one for each offset [k] of [[0, N - i)]: the cell at offset [k] holds
    the folded count of the result rows for the pair [(i, k)], and count 0
    when the results have no such pair. *)
Theorem retention_matrix_shape team N st st' parsed sql params rows :
  0 < N →
  calculate_retention team N st = (st', Ok parsed) →
  executed st' = executed st ++ [(sql, params)] →
  sync_execute sql params = Ok rows →
  Z.of_nat (length parsed) = N
  ∧ ∀ i, 0 ≤ i < N →
      ∃ r, parsed !! Z.to_nat i = Some r
           ∧ Z.of_nat (length (values r)) = N - i
           ∧ ∀ k, 0 ≤ k < N - i →
               values r !! Z.to_nat k = Some (cell_at (fold_rows rows) i k)
               ∧ ((∀ n, (i, k, n) ∉ rows) → count (cell_at (fold_rows rows) i k) = 0).
Proof.
  intros HN Hrun Hex Hrows. unfold calculate_retention in Hrun.
  apply bind_inv in Hrun as (st1 & [[[period trunc] date_from] date_to] & Hres & Hrun).
  apply bind_inv in Hrun as (st2 & rows' & Hq & Hrun).
  apply lift_inv in Hrun as [-> Hparse].
  apply resolve_dates_executed in Hres.
  apply run_query_inv in Hq as (sql' & params' & Hex' & Hrows').
  rewrite Hex', Hres in Hex. apply app_inj_tail in Hex as [_ [= -> ->]].
  assert (rows' = rows) as -> by congruence.
  apply parse_result_shape in Hparse as [Hlen Hall]. split; [lia|].
  intros i Hi. destruct (Hall i Hi) as (r & Hr & Hvals & _).
  exists r. split; [done|]. rewrite Hvals. unfold range. split.
  - rewrite length_fmap, length_seqZ. lia.
  - intros k Hk. split.
    + rewrite list_lookup_fmap, lookup_seqZ_lt by lia. simpl. do 2 f_equal. lia.
    + intros Habs. unfold cell_at. by rewrite fold_rows_absent.
Qed.

End Retention.

(** The run over three days: the counts of the matrix, the labels and the
    dates of its rows, and the range assigned to the filter. *)
Example three_days_counts :
  (λ r, count <$> values r) <$> Demo.three_days_matrix = [[3; 2; 0]; [0; 5]; [0]].
Proof. vm_compute. reflexivity. Qed.

Example three_days_rows :
  (λ r, (label r, date r)) <$> Demo.three_days_matrix
  = [("Day 0", Demo.midnight 2020 11 18); ("Day 1", Demo.midnight 2020 11 19);
     ("Day 2", Demo.midnight 2020 11 20)].
Proof. vm_compute. reflexivity. Qed.

Example three_days_range :
  _date_from (filter Demo.three_days.1) = Some "2020-11-18T00:00:00"
  ∧ _date_to (filter Demo.three_days.1) = Some "2020-11-21T00:00:00"
  ∧ Demo.three_days_query.2 !! "start_date" = Some (VStr "2020-11-18 00:00:00")
  ∧ Demo.three_days_query.2 !! "end_date" = Some (VStr "2020-11-21 00:00:00").
Proof. vm_compute. done. Qed.

(** Witness of C8: the period "Year". *)
Lemma unsupported_period_rejected_witness :
  calculate_retention (C := Demo.collaborators []) team7 11
    (Demo.a_state (Demo.a_filter (Some "Year") None None []))
  = (Demo.a_state (Demo.a_filter (Some "Year") None None []),
     Raise (ValueError "Period Year is unsupported.")).
Proof.
  exact (unsupported_period_rejected (C := Demo.collaborators []) team7 11
           (Demo.a_state (Demo.a_filter (Some "Year") None None []))
           ltac:(done) ltac:(done) ltac:(done) ltac:(done)).
Defined.

(** Witness of C5 amended: three daily intervals, the clock at 14:35:07
    on 20 November 2020.  The range ends at midnight of the 21st. *)
Lemma anchor_is_shifted_midnight_witness :
  ∃ st',
    resolve_dates (C := Demo.collaborators Demo.three_rows) 3 (Demo.a_state Demo.daily)
    = (st', Ok ("Day", "toStartOfDay", Demo.midnight 2020 11 18, Demo.midnight 2020 11 21))
    ∧ _date_to (filter st') = Some "2020-11-21T00:00:00"
    ∧ _date_from (filter st') = Some "2020-11-18T00:00:00"
    ∧ clock st' = 1%nat
    ∧ executed st' = []
    ∧ calculate_retention (C := Demo.collaborators Demo.three_rows) team7 3
        (Demo.a_state Demo.daily)
      = (rows ← run_query (C := Demo.collaborators Demo.three_rows) team7
                 "Day" "toStartOfDay"
                 (Demo.midnight 2020 11 18) (Demo.midnight 2020 11 21);
         lift (parse_result (C := Demo.collaborators Demo.three_rows)
                 "Day" (Demo.midnight 2020 11 18) 3 rows)) st'.
Proof.
  exact (anchor_is_shifted_midnight (C := Demo.collaborators Demo.three_rows)
           team7 3 (Demo.a_state Demo.daily)
           (Demo.Timedelta (3 * Demo.day_microseconds)) "toStartOfDay"
           (Demo.Timedelta Demo.day_microseconds)
           (Demo.of_microseconds
              (Demo.to_microseconds (Demo.now 0) + Demo.day_microseconds))
           (Demo.midnight 2020 11 18)
           ltac:(done) ltac:(reflexivity) ltac:(reflexivity) ltac:(reflexivity)
           ltac:(reflexivity) ltac:(reflexivity)).
Defined.

(** Counterexample to C5 as stated: the same run.  No reading of the
    clock, truncated to midnight, is the anchor: the clock shows
    20 November, the anchor is midnight of the 21st. *)
Lemma anchor_stated_default_fails :
  (resolve_dates (C := Demo.collaborators Demo.three_rows) 3
     (Demo.a_state Demo.daily)).2
  = Ok ("Day", "toStartOfDay", Demo.midnight 2020 11 18, Demo.midnight 2020 11 21)
  ∧ ¬ anchor_as_stated (C := Demo.collaborators Demo.three_rows).
Proof.
  split; [vm_compute; reflexivity|]. intros H.
  pose (run := resolve_dates (C := Demo.collaborators Demo.three_rows) 3
                 (Demo.a_state Demo.daily)).
  destruct (H 3 (Demo.a_state Demo.daily) run.1 "Day" "toStartOfDay"
              (Demo.midnight 2020 11 18) (Demo.midnight 2020 11 21)
              (Demo.Timedelta (3 * Demo.day_microseconds)) "toStartOfDay"
              (Demo.Timedelta Demo.day_microseconds)) as [[n Hn] _].
  - done.
  - reflexivity.
  - reflexivity.
  - vm_compute. reflexivity.
  - simpl in Hn. discriminate Hn.
Qed.

(** Witness of C1 amended: cohort by "sign up", return by "purchase". *)
Lemma first_time_returning_predicate_witness :
  ∃ target tparams returning rparams,
    condition_of (C := Demo.collaborators [])
      (target_of (C := Demo.collaborators []) Demo.first_time_filter) ""
    = Ok (target, tparams)
    ∧ condition_of (C := Demo.collaborators [])
        (first_entity (C := Demo.collaborators []) Demo.first_time_filter) "returning"
      = Ok (returning, rparams)
    ∧ event_conditions (C := Demo.collaborators []) Demo.first_time_filter "toStartOfDay"
      = Ok (target, Or target (And returning (SameBucket "toStartOfDay")),
            {[ "returning_event" := VStr "purchase" ]} ∪ {[ "_event" := VStr "sign up" ]})
    ∧ "AND e.event = %(_event)s" = "AND " +:+ render target
    ∧ "AND (e.event = %(_event)s OR (e.event = %(returning_event)s AND toStartOfDay(toDateTime(%(start_date)s)) = toStartOfDay(timestamp)))"
      = "AND " +:+ render (Or target (And returning (SameBucket "toStartOfDay")))
    ∧ ∀ R e,
        holds R ({[ "returning_event" := VStr "purchase" ]} ∪ {[ "_event" := VStr "sign up" ]})
              (Or target (And returning (SameBucket "toStartOfDay"))) e
        = holds R ({[ "returning_event" := VStr "purchase" ]} ∪ {[ "_event" := VStr "sign up" ]})
                target e
          || (holds R ({[ "returning_event" := VStr "purchase" ]} ∪ {[ "_event" := VStr "sign up" ]})
                    returning e
              && in_anchor_bucket R "toStartOfDay" e).
Proof.
  exact (first_time_returning_predicate (C := Demo.collaborators [])
           Demo.first_time_filter "toStartOfDay" _ _ _ eq_refl eq_refl).
Defined.

(** Counterexample to C1 as stated.  For the filter above the code builds
    the text shown, the rendering of "sign up, or purchase in the anchor
    bucket"; a purchase on the second day does not satisfy it, although it
    is the returning entity's action. *)
Lemma first_time_stated_predicate_fails :
  _get_event_filter (C := Demo.collaborators []) Demo.first_time_filter "toStartOfDay"
  = Ok ("AND e.event = %(_event)s",
        "AND (e.event = %(_event)s OR (e.event = %(returning_event)s AND toStartOfDay(toDateTime(%(start_date)s)) = toStartOfDay(timestamp)))",
        {[ "returning_event" := VStr "purchase" ]} ∪ {[ "_event" := VStr "sign up" ]})
  ∧ ¬ first_time_as_stated (C := Demo.collaborators []).
Proof.
  split; [reflexivity|]. intros H.
  specialize (H Demo.first_time_filter "toStartOfDay" _ _ _ _ _ _
                Demo.hours Demo.late_purchase eq_refl eq_refl eq_refl eq_refl).
  vm_compute in H. discriminate H.
Qed.

(** The other way round: a sign-up on the second day, outside the anchor
    bucket, satisfies the returning predicate. *)
Example first_time_admits_late_target :
  holds Demo.hours
    ({[ "returning_event" := VStr "purchase" ]} ∪ {[ "_event" := VStr "sign up" ]})
    (Or (EventIs "_event") (And (EventIs "returning_event") (SameBucket "toStartOfDay")))
    Demo.late_sign_up = true
  ∧ in_anchor_bucket Demo.hours "toStartOfDay" Demo.late_sign_up = false.
Proof. vm_compute. done. Qed.

(** Witness of C2 amended: the run over three days. *)
Lemma retention_matrix_shape_witness :
  Z.of_nat (length Demo.three_days_matrix) = 3
  ∧ ∀ i, 0 ≤ i < 3 →
      ∃ r, Demo.three_days_matrix !! Z.to_nat i = Some r
           ∧ Z.of_nat (length (values r)) = 3 - i
           ∧ ∀ k, 0 ≤ k < 3 - i →
               values r !! Z.to_nat k
               = Some (cell_at (fold_rows Demo.three_rows) i k)
               ∧ ((∀ n, (i, k, n) ∉ Demo.three_rows) →
                  count (cell_at (fold_rows Demo.three_rows) i k) = 0).
Proof.
  apply (retention_matrix_shape (C := Demo.collaborators Demo.three_rows) team7 3
           (Demo.a_state Demo.daily) Demo.three_days.1 Demo.three_days_matrix
           Demo.three_days_query.1 Demo.three_days_query.2 Demo.three_rows).
  - lia.
  - vm_compute. reflexivity.
  - vm_compute. reflexivity.
  - reflexivity.
Defined.

(** Counterexample to C2 as stated.  Over two days, with the single result
    row (1, 1, 5): row 1 has one cell, for seen bucket 1, and the claim
    wants the count of the pair (1, 1) in it; the code looks up (1, 0) and
    puts 0 there. *)
Lemma matrix_stated_indexing_fails :
  ¬ matrix_as_stated (C := Demo.collaborators [(1, 1, 5)]).
Proof.
  intros H.
  pose (run := calculate_retention (C := Demo.collaborators [(1, 1, 5)]) team7 2
                 (Demo.a_state Demo.daily)).
  destruct (H team7 2 (Demo.a_state Demo.daily) run.1
              (match run.2 with Ok parsed => parsed | Raise _ => [] end)
              (default ("", ∅) (last (executed run.1))).1
              (default ("", ∅) (last (executed run.1))).2
              [(1, 1, 5)]) as [_ Hrows].
  - lia.
  - vm_compute. reflexivity.
  - vm_compute. reflexivity.
  - reflexivity.
  - destruct (Hrows 1) as (r & Hr & _ & Hcell); [lia|].
    specialize (Hcell 1 ltac:(lia)). vm_compute in Hr. injection Hr as <-.
    vm_compute in Hcell. discriminate Hcell.
Qed.

(** *** Further properties of the retention query *)

Section Further.

Context {datetime delta property Action : Type}.
Context {C : Collaborators datetime delta property Action}.

Abbreviation Filter := (Filter property).
Abbreviation row := (row datetime).
Abbreviation state := (@state property).
Abbreviation M := (@M property).

Implicit Types (f : Filter) (st : state) (period trunc : string).

Lemma resolve_dates_frame N st st' (r : result (string * string * datetime * datetime)) :
  resolve_dates N st = (st', r) → assigns_only_dates 2 st st'.
Proof.
  unfold resolve_dates, date_to_or_now, mbind, M_bind, get_filter, lift,
    read_clock, assign__date_to, assign__date_from, mret, M_ret, assigns_only_dates.
  intros H. repeat case_match; simplify_eq/=; split_and!; try done; lia.
Qed.

Lemma resolve_dates_period N st st' p tr (df dt : datetime) :
  resolve_dates N st = (st', Ok (p, tr, df, dt)) → p = period_or_day (filter st).
Proof.
  unfold resolve_dates, date_to_or_now, mbind, M_bind, get_filter, lift,
    read_clock, assign__date_to, assign__date_from, mret, M_ret.
  intros H. repeat case_match; simplify_eq/=; done.
Qed.

Lemma run_query_frame team period trunc (date_from date_to : datetime) st st'
    (r : result (list (Z * Z * Z))) :
  run_query team period trunc date_from date_to st = (st', r) →
  filter st' = filter st ∧ clock st' = clock st
  ∧ ((executed st' = executed st ∧ ¬ is_Ok r)
     ∨ ∃ sql params, executed st' = executed st ++ [(sql, params)]
                     ∧ params !! "period" = Some (VStr period)
                     ∧ r = sync_execute sql params).
Proof.
  unfold run_query, execute, mbind, M_bind, get_filter, lift.
  intros H. repeat case_match; simplify_eq/=; split_and!; try done;
    try (left; split; [done|]; by intros []).
  all: right; do 2 eexists; split; [done|]; split; [|done];
    by rewrite lookup_insert_eq.
Qed.

Lemma calculate_retention_inv team N st st' parsed :
  calculate_retention team N st = (st', Ok parsed) →
  ∃ date_from sql params rows,
    executed st' = executed st ++ [(sql, params)]
    ∧ sync_execute sql params = Ok rows
    ∧ parse_result (period_or_day (filter st)) date_from N rows = Ok parsed.
Proof.
  intros Hrun. unfold calculate_retention in Hrun.
  apply bind_inv in Hrun as (st1 & [[[period trunc] date_from] date_to] & Hres & Hrun).
  apply bind_inv in Hrun as (st2 & rows & Hq & Hrun).
  apply lift_inv in Hrun as [-> Hparse].
  pose proof (resolve_dates_period _ _ _ _ _ _ _ Hres) as ->.
  apply resolve_dates_executed in Hres.
  apply run_query_inv in Hq as (sql & params & Hex & Hrows).
  exists date_from, sql, params, rows. by rewrite Hex, Hres.
Qed.

(** X14.  Whatever the outcome of [run], the filter it was given has been
    assigned to in [_date_from] and [_date_to] only, and the clock has been
    read at most twice. *)
Theorem run_assigns_only_dates team total_intervals st st' (r : result (list row)) :
  run team total_intervals st = (st', r) →
  Retention.period (filter st') = Retention.period (filter st)
  ∧ properties (filter st') = properties (filter st)
  ∧ target_entity (filter st') = target_entity (filter st)
  ∧ entities (filter st') = entities (filter st)
  ∧ retention_type (filter st') = retention_type (filter st)
  ∧ (clock st ≤ clock st' ≤ clock st + 2)%nat.
Proof.
  unfold run, calculate_retention, mbind, M_bind.
  destruct (resolve_dates (default 11 total_intervals) st)
    as [st1 [[[[period trunc] date_from] date_to]|e]] eqn:Hres;
    apply resolve_dates_frame in Hres; [|by intros [= <- _]].
  destruct (run_query team period trunc date_from date_to st1) as [st2 [rows|e]] eqn:Hq;
    apply run_query_frame in Hq as (Hf & Hc & _).
  - unfold lift. intros [= <- _]. unfold assigns_only_dates in Hres.
    by rewrite Hf, Hc.
  - intros [= <- _]. unfold assigns_only_dates in Hres. by rewrite Hf, Hc.
Qed.

(** X15.  A call of [calculate_retention] sends at most one query, and
    none when it raises before line 47.  The query's parameter ["period"]
    is the resolved period, whatever the property and entity parameters
    bind; and when the call returns, the query was sent and answered. *)
Theorem one_query_per_call team N st st' (r : result (list row)) :
  calculate_retention team N st = (st', r) →
  (executed st' = executed st ∧ ¬ is_Ok r)
  ∨ ∃ sql params,
      executed st' = executed st ++ [(sql, params)]
      ∧ params !! "period" = Some (VStr (period_or_day (filter st)))
      ∧ (is_Ok r → is_Ok (sync_execute sql params)).
Proof.
  unfold calculate_retention, mbind, M_bind.
  destruct (resolve_dates N st)
    as [st1 [[[[period trunc] date_from] date_to]|e]] eqn:Hres.
  - pose proof (resolve_dates_period _ _ _ _ _ _ _ Hres) as ->.
    apply resolve_dates_executed in Hres.
    destruct (run_query team (period_or_day (filter st)) trunc date_from date_to st1)
      as [st2 [rows|e]] eqn:Hq;
      apply run_query_frame in Hq as (_ & _ & [[Hex Hr]|(sql & params & Hex & Hp & Hr)]).
    + by destruct Hr.
    + unfold lift. intros [= <- _]. right. exists sql, params.
      rewrite Hex, Hres. split; [done|]. split; [done|]. by rewrite <-Hr.
    + intros [= <- <-]. left. split; [congruence|]. by intros [].
    + intros [= <- <-]. right. exists sql, params.
      rewrite Hex, Hres. split; [done|]. split; [done|]. by intros [].
  - apply resolve_dates_executed in Hres. intros [= <- <-]. left.
    split; [done|]. by intros [].
Qed.

(** *** The predicates *)

(** X16.  Outside first-time mode the target and the returning predicate
    are the same text, the target entity's condition, with that
    condition's parameters: the returning entities and the truncation
    function play no part. *)
Theorem recurring_predicates_coincide f trunc :
  retention_type f ≠ Some RETENTION_FIRST_TIME →
  _get_event_filter f trunc
  = result_map (λ qp, ("AND " +:+ qp.1, "AND " +:+ qp.1, qp.2))
      (_get_condition (target_of f) "").
Proof.
  intros Hrt. unfold _get_event_filter. rewrite bool_decide_eq_false_2 by done.
  destruct (_get_condition (target_of f) "") as [[q params]|e]; [|done]. simpl.
  by rewrite (idemp (∪) params).
Qed.

Lemma condition_of_event (e : Entity) prepend :
  type e ≠ TREND_FILTER_TYPE_ACTIONS →
  condition_of e prepend
  = Ok (EventIs (prepend +:+ "_event"), {[ prepend +:+ "_event" := event_name e ]}).
Proof.
  intros Ha. unfold condition_of, event_name. rewrite decide_False by done.
  by case_decide.
Qed.

(** X17.  In first-time mode, when neither the target nor the returning
    entity is an action, the query parameters bind ["_event"] to the
    target's event name and ["returning_event"] to the returning entity's,
    and the returning predicate admits exactly the events that carry the
    target's name, or the returning entity's name in the anchor bucket. *)
Theorem first_time_event_predicate f trunc :
  retention_type f = Some RETENTION_FIRST_TIME →
  type (target_of f) ≠ TREND_FILTER_TYPE_ACTIONS →
  type (first_entity f) ≠ TREND_FILTER_TYPE_ACTIONS →
  let params : gmap string value :=
    {[ "returning_event" := event_name (first_entity f) ]}
    ∪ {[ "_event" := event_name (target_of f) ]} in
  let c := Or (EventIs "_event") (And (EventIs "returning_event") (SameBucket trunc)) in
  _get_event_filter f trunc
  = Ok ("AND " +:+ render (EventIs "_event"), "AND " +:+ render c, params)
  ∧ ∀ R e,
      holds R params c e
      = bool_decide (event e = event_name (target_of f))
        || (bool_decide (event e = event_name (first_entity f))
            && in_anchor_bucket R trunc e).
Proof.
  intros Hft Ht Hr params c. split.
  - rewrite render_event_filter. unfold event_conditions.
    rewrite bool_decide_eq_true_2 by done.
    rewrite !condition_of_event by done. reflexivity.
  - intros R e. simpl. f_equal; [|f_equal].
    + apply bool_decide_ext. unfold params.
      rewrite lookup_union_r by (by apply lookup_singleton_ne).
      rewrite lookup_singleton_eq. split; [by intros [= ->]|by intros ->].
    + apply bool_decide_ext. unfold params.
      rewrite lookup_union_l' by (rewrite lookup_singleton_eq; eauto).
      rewrite lookup_singleton_eq. split; [by intros [= ->]|by intros ->].
Qed.

(** *** The matrix *)

(** X18.  When the results carry a pair several times, the cell of the
    pair shows the count of the last of its rows. *)
Theorem duplicate_pair_last_count team N st st' parsed sql params rows rows' i k n :
  calculate_retention team N st = (st', Ok parsed) →
  executed st' = executed st ++ [(sql, params)] →
  sync_execute sql params = Ok (rows ++ (i, k, n) :: rows') →
  (∀ m, (i, k, m) ∉ rows') →
  0 ≤ i < N → 0 ≤ k < N - i →
  ∃ r, parsed !! Z.to_nat i = Some r
       ∧ values r !! Z.to_nat k = Some {| count := n; people := [] |}.
Proof.
  intros (df & sql' & params' & rows0 & Hex' & Hrows' & Hparse)%calculate_retention_inv
    Hex Hrows Hlast Hi Hk.
  rewrite Hex' in Hex. apply app_inj_tail in Hex as [_ [= -> ->]].
  assert (rows0 = rows ++ (i, k, n) :: rows') as -> by congruence.
  apply parse_result_shape in Hparse as [_ Hall].
  destruct (Hall i Hi) as (r & Hr & Hvals & _). exists r. split; [done|].
  rewrite Hvals. unfold range.
  rewrite list_lookup_fmap, lookup_seqZ_lt by lia. simpl.
  unfold cell_at. replace (0 + Z.of_nat (Z.to_nat k)) with k by lia.
  by rewrite fold_rows_last.
Qed.

Lemma fold_rows_filter N rows i k :
  in_triangle N (i, k, 0) →
  fold_rows (base.filter (in_triangle N) rows) !! (i, k) = fold_rows rows !! (i, k).
Proof.
  intros Hik. induction rows as [|[[a b] c] rows IH] using rev_ind; [done|].
  rewrite filter_app, filter_cons, filter_nil.
  destruct (decide (in_triangle N (a, b, c))) as [Hin|Hout].
  - rewrite !fold_rows_snoc. destruct (decide ((a, b) = (i, k))) as [->|Hne].
    + by rewrite !lookup_insert_eq.
    + by rewrite !lookup_insert_ne.
  - rewrite app_nil_r, fold_rows_snoc, lookup_insert_ne; [done|].
    intros [= -> ->]. by apply Hout.
Qed.

Lemma comprehension_ext {A B} (g g' : A → result B) (l : list A) :
  (∀ x, x ∈ l → g x = g' x) → comprehension g l = comprehension g' l.
Proof.
  induction l as [|x l IH]; [done|]. intros Hext. simpl.
  rewrite (Hext x) by (by left). rewrite IH; [done|].
  intros y Hy. apply Hext. by right.
Qed.

(** X19.  Result rows outside the triangle (a first bucket outside
    [[0, N)], or an offset outside [[0, N - i)]) do not show in the
    matrix: it is the one built from the rows inside. *)
Theorem rows_outside_triangle_ignored period (date_from : datetime) N rows :
  parse_result period date_from N (base.filter (in_triangle N) rows)
  = parse_result period date_from N rows.
Proof.
  unfold parse_result. unfold mbind at 1 3, result_bind at 1 3.
  destruct (if decide (period = "Week") then _ else _) as [start|e]; [|done].
  apply comprehension_ext. intros i Hi. unfold range in Hi.
  apply elem_of_seqZ in Hi.
  assert ((λ day, cell_at (fold_rows (base.filter (in_triangle N) rows)) i day)
            <$> range (N - i)
          = (λ day, cell_at (fold_rows rows) i day) <$> range (N - i)) as ->; [|done].
  apply list_fmap_ext. intros j k Hk. unfold range in Hk.
  apply lookup_seqZ in Hk as [-> Hj]. unfold cell_at.
  rewrite fold_rows_filter; [done|]. unfold in_triangle. simpl. lia.
Qed.

(** X20.  With [total_intervals] zero or negative the call, when it
    returns, returns the empty matrix; the query has been sent all the
    same. *)
Theorem nonpositive_intervals_empty_matrix team N st st' parsed :
  N ≤ 0 →
  calculate_retention team N st = (st', Ok parsed) →
  parsed = [] ∧ ∃ sql params, executed st' = executed st ++ [(sql, params)].
Proof.
  intros HN (df & sql & params & rows & Hex & _ & Hparse)%calculate_retention_inv.
  apply parse_result_shape in Hparse as [Hlen _]. split; [|by eauto].
  apply nil_length_inv. lia.
Qed.

(** X21.  With the period Hour and no [date_to] in the filter, the anchor
    is not truncated: it is the instant that line 31 assigned to
    [filter._date_to] and that [filter.date_to] gives back on line 34, the
    current time plus one hour.  [date_from] is the anchor minus
    [total_intervals] hours, and the clock has been read once. *)
Theorem hour_anchor_not_truncated N st step t1 shifted date_from :
  period_or_day (filter st) = "Hour" →
  timedelta_hours N = Ok step →
  timedelta_hours 1 = Ok t1 →
  date_to (filter st) = None →
  dt_add (now (clock st)) t1 = Ok shifted →
  date_to (with__date_to (isoformat shifted) (filter st)) = Some shifted →
  dt_sub shifted step = Ok date_from →
  ∃ st',
    resolve_dates N st = (st', Ok ("Hour", PERIOD_TRUNC_HOUR, date_from, shifted))
    ∧ _date_to (filter st') = Some (isoformat shifted)
    ∧ _date_from (filter st') = Some (isoformat date_from)
    ∧ clock st' = S (clock st).
Proof.
  intros Hp Hstep Ht1 H31 Hadd H34 Hsub.
  assert (_determineTimedelta N "Hour" = Ok (step, PERIOD_TRUNC_HOUR, t1)) as Hd.
  { unfold _determineTimedelta. rewrite decide_True by done.
    by rewrite Hstep, Ht1. }
  eexists.
  unfold resolve_dates, date_to_or_now, mbind, M_bind,
    get_filter, lift, read_clock, assign__date_to, assign__date_from, mret, M_ret.
  simpl. rewrite Hp, Hd, H31. simpl. rewrite Hadd. simpl.
  cbn [filter]. rewrite H34. simpl. rewrite Hsub.
  split; [reflexivity|]. done.
Qed.

(** X22.  Row [i] of the matrix is labelled with the period and [i], and
    dated [i] periods after the start of the range; for the period Week
    the start is first moved back by [isoweekday() % 7] days. *)
Theorem row_labels_and_dates period (date_from : datetime) N rows parsed :
  parse_result period date_from N rows = Ok parsed →
  ∃ start,
    (if decide (period = "Week")
     then ∃ d, timedelta_days (isoweekday date_from `mod` 7) = Ok d
               ∧ dt_sub date_from d = Ok start
     else start = date_from)
    ∧ ∀ i, 0 ≤ i < N →
        ∃ r step tr t1,
          parsed !! Z.to_nat i = Some r
          ∧ label r = period +:+ " " +:+ pretty i
          ∧ _determineTimedelta i period = Ok (step, tr, t1)
          ∧ dt_add start step = Ok (date r).
Proof.
  unfold parse_result. unfold mbind at 1, result_bind at 1.
  destruct (if decide (period = "Week") then _ else _) as [start|e] eqn:Hstart; [|done].
  intros Hc. exists start. split.
  - destruct (decide (period = "Week")); [|congruence].
    unfold mbind, result_bind in Hstart.
    destruct (timedelta_days (isoweekday date_from `mod` 7)) as [d|]; [|done]. eauto.
  - apply comprehension_Ok in Hc as [_ Hall]. intros i Hi.
    destruct (Hall (Z.to_nat i) i) as (r & Hr & Hbody).
    { unfold range. rewrite lookup_seqZ_lt by lia. f_equal. lia. }
    unfold mbind, result_bind in Hbody.
    destruct (_determineTimedelta i period) as [[[step tr] t1]|?]; [|done].
    destruct (dt_add start step) as [dt|] eqn:Hdt; [|done]. simplify_eq.
    eexists _, step, tr, t1. by split_and!.
Qed.

End Further.

(** Witness of X14: the run over three days. *)
Lemma run_assigns_only_dates_witness :
  Retention.period (filter Demo.three_days.1) = Retention.period Demo.daily
  ∧ properties (filter Demo.three_days.1) = properties Demo.daily
  ∧ target_entity (filter Demo.three_days.1) = target_entity Demo.daily
  ∧ entities (filter Demo.three_days.1) = entities Demo.daily
  ∧ retention_type (filter Demo.three_days.1) = retention_type Demo.daily
  ∧ (0 ≤ clock Demo.three_days.1 ≤ 0 + 2)%nat.
Proof.
  apply (run_assigns_only_dates (C := Demo.collaborators Demo.three_rows) team7
           (Some 3) (Demo.a_state Demo.daily) Demo.three_days.1 Demo.three_days.2).
  vm_compute. reflexivity.
Defined.

(** Witness of X15: the run over three days. *)
Lemma one_query_per_call_witness :
  (executed Demo.three_days.1 = [] ∧ ¬ is_Ok Demo.three_days.2)
  ∨ ∃ sql params,
      executed Demo.three_days.1 = [] ++ [(sql, params)]
      ∧ params !! "period" = Some (VStr "Day")
      ∧ (is_Ok Demo.three_days.2 → is_Ok (Ok Demo.three_rows)).
Proof.
  apply (one_query_per_call (C := Demo.collaborators Demo.three_rows) team7 3
           (Demo.a_state Demo.daily) Demo.three_days.1 Demo.three_days.2).
  vm_compute. reflexivity.
Defined.

(** Witness of X16: the daily filter, which has no retention type. *)
Lemma recurring_predicates_coincide_witness :
  _get_event_filter (C := Demo.collaborators []) Demo.daily "toStartOfDay"
  = Ok ("AND e.event = %(_event)s", "AND e.event = %(_event)s",
        {[ "_event" := VStr "$pageview" ]}).
Proof.
  apply (recurring_predicates_coincide (C := Demo.collaborators []) Demo.daily
           "toStartOfDay").
  done.
Defined.

(** Witness of X17: cohort by "sign up", return by "purchase". *)
Lemma first_time_event_predicate_witness :
  let params : gmap string value :=
    {[ "returning_event" := VStr "purchase" ]} ∪ {[ "_event" := VStr "sign up" ]} in
  let c := Or (EventIs "_event")
              (And (EventIs "returning_event") (SameBucket "toStartOfDay")) in
  _get_event_filter (C := Demo.collaborators []) Demo.first_time_filter "toStartOfDay"
  = Ok ("AND e.event = %(_event)s", "AND " +:+ render c, params)
  ∧ ∀ R e,
      holds R params c e
      = bool_decide (event e = VStr "sign up")
        || (bool_decide (event e = VStr "purchase")
            && in_anchor_bucket R "toStartOfDay" e).
Proof.
  apply (first_time_event_predicate (C := Demo.collaborators [])
           Demo.first_time_filter "toStartOfDay"); done.
Defined.

(** Witness of X18: the pair (0, 0) with count 3, then with count 4. *)
Lemma duplicate_pair_last_count_witness :
  ∃ r, Demo.matrix_of Demo.twice_run !! Z.to_nat 0 = Some r
       ∧ values r !! Z.to_nat 0 = Some {| count := 4; people := [] |}.
Proof.
  apply (duplicate_pair_last_count (C := Demo.collaborators Demo.twice) team7 3
           (Demo.a_state Demo.daily) Demo.twice_run.1 (Demo.matrix_of Demo.twice_run)
           (Demo.query_of Demo.twice_run).1 (Demo.query_of Demo.twice_run).2
           [(0, 0, 3)] [] 0 0 4).
  - vm_compute. reflexivity.
  - vm_compute. reflexivity.
  - reflexivity.
  - intros m. apply not_elem_of_nil.
  - lia.
  - lia.
Defined.

(** Witness of X20: no interval. *)
Lemma nonpositive_intervals_empty_matrix_witness :
  let zero := calculate_retention (C := Demo.collaborators Demo.three_rows) team7 0
                (Demo.a_state Demo.daily) in
  Demo.matrix_of zero = []
  ∧ ∃ sql params, executed zero.1 = [] ++ [(sql, params)].
Proof.
  intros zero.
  apply (nonpositive_intervals_empty_matrix (C := Demo.collaborators Demo.three_rows)
           team7 0 (Demo.a_state Demo.daily) zero.1 (Demo.matrix_of zero)).
  - lia.
  - vm_compute. reflexivity.
Defined.

(** Witness of X21: three hours back from 15:35:07, an hour after the
    clock's 14:35:07. *)
Lemma hour_anchor_not_truncated_witness :
  ∃ st',
    resolve_dates (C := Demo.collaborators []) 3 (Demo.a_state Demo.hourly)
    = (st', Ok ("Hour", "toStartOfHour",
                {| Demo.year := 2020; Demo.month := 11; Demo.day := 20;
                   Demo.hour := 12; Demo.minute := 35; Demo.second := 7;
                   Demo.microsecond := 0 |},
                {| Demo.year := 2020; Demo.month := 11; Demo.day := 20;
                   Demo.hour := 15; Demo.minute := 35; Demo.second := 7;
                   Demo.microsecond := 0 |}))
    ∧ _date_to (filter st') = Some "2020-11-20T15:35:07"
    ∧ _date_from (filter st') = Some "2020-11-20T12:35:07"
    ∧ clock st' = 1%nat.
Proof.
  exact (hour_anchor_not_truncated (C := Demo.collaborators []) 3
           (Demo.a_state Demo.hourly)
           (Demo.Timedelta (3 * 3600000000)) (Demo.Timedelta 3600000000)
           {| Demo.year := 2020; Demo.month := 11; Demo.day := 20;
              Demo.hour := 15; Demo.minute := 35; Demo.second := 7;
              Demo.microsecond := 0 |}
           {| Demo.year := 2020; Demo.month := 11; Demo.day := 20;
              Demo.hour := 12; Demo.minute := 35; Demo.second := 7;
              Demo.microsecond := 0 |}
           ltac:(reflexivity) ltac:(reflexivity) ltac:(reflexivity) ltac:(reflexivity)
           ltac:(reflexivity) ltac:(reflexivity) ltac:(reflexivity)).
Defined.

(** Witness of X22: the rows of the run over three days. *)
Lemma row_labels_and_dates_witness :
  ∃ start,
    start = Demo.midnight 2020 11 18
    ∧ ∀ i, 0 ≤ i < 3 →
        ∃ r step tr t1,
          Demo.three_days_matrix !! Z.to_nat i = Some r
          ∧ label r = "Day" +:+ " " +:+ pretty i
          ∧ _determineTimedelta (C := Demo.collaborators Demo.three_rows) i "Day"
            = Ok (step, tr, t1)
          ∧ dt_add (Collaborators := Demo.collaborators Demo.three_rows) start step
            = Ok (date r).
Proof.
  apply (row_labels_and_dates (C := Demo.collaborators Demo.three_rows) "Day"
           (Demo.midnight 2020 11 18) 3 Demo.three_rows Demo.three_days_matrix).
  vm_compute. reflexivity.
Defined.

End RetentionFacts.
